(** * Challenge bot: persistence layer (data/crud.py) and lifecycle engine
      (bot/challenge.py), as a shallow embedding.

    Conventions of the embedding.
    - The SQLite connection is an explicit value [Db]; every function of
      crud.py that writes takes the database and returns the new one together
      with its outcome.  A table is the list of its rows in rowid order.
    - A Python exception is an outcome [Raise e]; a handler that lets an
      exception escape ends in [Raise e].
    - Timestamps are stored by the code as ISO-8601 text of a UTC datetime;
      here a timestamp is the number of microseconds since the epoch (UTC),
      an unbounded integer.  SQLite's [date(created)] and Python's
      [strftime("%Y-%m-%d")] both yield the UTC calendar day; comparing the
      two texts is comparing day numbers.
    - [datetime.now(timezone.utc)] is an explicit argument [now].
    - Python [str] is modelled by [string]; [str.lower] acts on the letters
      A-Z. *)

From Stdlib Require Import ZArith String Ascii List Bool Lia.
From stdpp Require Import gmap strings list fin_maps pretty.

Local Open Scope Z_scope.

(** * The persistence layer: data/crud.py *)

(** ** Outcomes *)

(** [ChallengeResponded] and [RoleExists] are the two exception classes of
    crud.py; [TypeError] and [KeyError] are the Python built-ins the code can
    run into.  [NotFound] is the error the specification names for a missing
    challenge: no statement of the code raises it. *)
Inductive exn : Set :=
  | ChallengeResponded
  | RoleExists
  | TypeError
  | KeyError
  | NotFound.

Inductive result (A : Type) : Type :=
  | Ok (a : A)
  | Raise (e : exn).
Arguments Ok {A} a.
Arguments Raise {A} e.

Definition is_ok {A} (r : result A) : bool :=
  match r with Ok _ => true | Raise _ => false end.

(** ** Time *)

Definition timestamp := Z.

Definition usec_per_day : Z := 86400 * 1000000.

(** [timedelta(days=d)] *)
Definition timedelta_days (d : Z) : Z := d * usec_per_day.

(** The calendar day (UTC) of a timestamp: what [strftime("%Y-%m-%d")] and
    SQLite's [date(...)] print. *)
Definition date_of (t : timestamp) : Z := t / usec_per_day.

(** ** Strings *)

Definition lower_ascii (c : ascii) : ascii :=
  let n := nat_of_ascii c in
  if (Nat.leb 65 n && Nat.leb n 90)%bool then ascii_of_nat (n + 32) else c.

(** [str.lower()] *)
Fixpoint lower (s : string) : string :=
  match s with
  | EmptyString => EmptyString
  | String c s' => String (lower_ascii c) (lower s')
  end.

(** [needle in haystack] for Python strings *)
Fixpoint contains (needle haystack : string) : bool :=
  String.prefix needle haystack ||
  match haystack with
  | EmptyString => false
  | String _ rest => contains needle rest
  end.

(** ** Data classes of crud.py *)

(** [Challenge].  The field [id] is [challenge_id] here, [_created_str] and
    [_responded_at_str] are the timestamps they hold. *)
Record Challenge : Set := mkChallenge {
  challenge_id : Z;
  created : timestamp;
  guild_id : Z;
  text_channel_id : Z;
  message_id : Z;
  challenge_type : string;
  responding_member_id : option Z;
  responded_at : option timestamp
}.

Definition is_open (c : Challenge) : bool :=
  match responded_at c with None => true | Some _ => false end.

Definition elapsed (c : Challenge) : option Z :=
  match responded_at c with
  | Some t => Some (t - created c)
  | None => None
  end.

(** [MatchTypeRole]; [id] and [guild_id] carry a prefix because [Challenge]
    has fields of the same name. *)
Record MatchTypeRole : Set := mkMatchTypeRole {
  mtr_id : Z;
  mtr_guild_id : Z;
  match_type : string;
  role_id : Z
}.

Global Instance Challenge_eq_dec : EqDecision Challenge.
Proof. solve_decision. Defined.

Global Instance MatchTypeRole_eq_dec : EqDecision MatchTypeRole.
Proof. solve_decision. Defined.

(** ** The database *)

(** Modelled from the spec: the schema script data/scripts/create.sql is not
    part of the sources.  The specification gives two tables,
    [challenges(id, created, guild_id, text_channel_id, message_id,
    challenge_type, responding_member_id, responded_at)] and
    [match_type_roles(id, guild_id, match_type, role_id)] with
    [unique (guild_id, match_type, role_id)]; it states no uniqueness
    constraint on [challenges.message_id].  [id] is the integer primary key of
    either table. *)
Record Db : Set := mkDb {
  tbl_challenges : list Challenge;
  tbl_match_type_roles : list MatchTypeRole
}.

Definition empty_db : Db := mkDb [] [].

(** Modelled from the spec: the key SQLite gives a new row of a table with an
    integer primary key, one more than the largest key in use (1 in an empty
    table). *)
Definition next_rowid (ids : list Z) : Z :=
  1 + fold_right Z.max 0 ids.

Definition with_challenges (db : Db) (rows : list Challenge) : Db :=
  mkDb rows (tbl_match_type_roles db).

Definition with_match_type_roles (db : Db) (rows : list MatchTypeRole) : Db :=
  mkDb (tbl_challenges db) rows.

(** [where message_id = ?] *)
Definition has_message_id (mid : Z) (c : Challenge) : bool :=
  message_id c =? mid.

(** ** crud.py *)

(** [Challenge( *row)] on the result of [cursor.fetchone()]: unpacking [None]
    raises [TypeError]. *)
Definition Challenge_of_row (row : option Challenge) : result Challenge :=
  match row with
  | Some r => Ok r
  | None => Raise TypeError
  end.

(** [insert_challenge]: [created_at] defaults to [now]; the type is
    lower-cased; the new row is returned ([RETURNING *]). *)
Definition insert_challenge (db : Db) (now : timestamp)
    (guild : Z) (text_channel : Z) (message : Z) (ctype : string)
    (created_at : option timestamp) : Db * result Challenge :=
  let created_at := match created_at with Some t => t | None => now end in
  let row := {| challenge_id := next_rowid (map challenge_id (tbl_challenges db));
                created := created_at;
                guild_id := guild;
                text_channel_id := text_channel;
                message_id := message;
                challenge_type := lower ctype;
                responding_member_id := None;
                responded_at := None |} in
  (with_challenges db (tbl_challenges db ++ [row]), Challenge_of_row (Some row)).

(** The [update challenges set responded_at = ?, responding_member_id = ?
    where message_id = ?] of [respond_to_challenge]. *)
Definition set_response (now : timestamp) (member : Z) (c : Challenge) : Challenge :=
  {| challenge_id := challenge_id c;
     created := created c;
     guild_id := guild_id c;
     text_channel_id := text_channel_id c;
     message_id := message_id c;
     challenge_type := challenge_type c;
     responding_member_id := Some member;
     responded_at := Some now |}.

Definition update_response (now : timestamp) (mid member : Z)
    (rows : list Challenge) : list Challenge :=
  map (fun c => if has_message_id mid c then set_response now member c else c) rows.

(** [respond_to_challenge]: the respondent of the first row with the message
    id is read; [if row and row[0] is not None] raises [ChallengeResponded];
    otherwise the update runs, its first returned row is fetched, the
    transaction is committed and the row is made the result. *)
Definition respond_to_challenge (db : Db) (now : timestamp)
    (challenge_message_id member_id : Z) : Db * result Challenge :=
  let row := responding_member_id
               <$> find (has_message_id challenge_message_id) (tbl_challenges db) in
  match row with
  | Some (Some _) => (db, Raise ChallengeResponded)
  | _ =>
    let responded_at := now in
    let rows := update_response responded_at challenge_message_id member_id
                                (tbl_challenges db) in
    let row := find (has_message_id challenge_message_id) rows in
    (with_challenges db rows, Challenge_of_row row)
  end.

(** [fetch_challenge] *)
Definition fetch_challenge (db : Db) (mid : Z) : option Challenge :=
  find (has_message_id mid) (tbl_challenges db).

(** [fetch_all_challenges] *)
Definition fetch_all_challenges (db : Db) (unresponded_only : bool) : list Challenge :=
  if unresponded_only
  then filter (fun c => responded_at c = None) (tbl_challenges db)
  else tbl_challenges db.

(** [fetch_roles] *)
Definition fetch_roles (db : Db) : list MatchTypeRole := tbl_match_type_roles db.

(** The unique index of [match_type_roles]: text is compared as it is
    stored. *)
Definition same_triple (guild : Z) (mtype : string) (role : Z) (r : MatchTypeRole) : bool :=
  bool_decide (mtr_guild_id r = guild ∧ match_type r = mtype ∧ role_id r = role).

(** [create_match_type_role]: the insert violates the unique index exactly
    when the triple is stored; the [IntegrityError] is turned into
    [RoleExists]. *)
Definition create_match_type_role (db : Db) (guild : Z) (mtype : string) (role : Z)
    : Db * result MatchTypeRole :=
  if existsb (same_triple guild mtype role) (tbl_match_type_roles db)
  then (db, Raise RoleExists)
  else
    let row := {| mtr_id := next_rowid (map mtr_id (tbl_match_type_roles db));
                  mtr_guild_id := guild;
                  match_type := mtype;
                  role_id := role |} in
    (with_match_type_roles db (tbl_match_type_roles db ++ [row]), Ok row).

(** [delete_match_type_role] *)
Definition delete_match_type_role (db : Db) (row_id : Z) : Db * result unit :=
  (with_match_type_roles db
     (filter (fun r => mtr_id r ≠ row_id) (tbl_match_type_roles db)), Ok tt).

(** [fetch_last_days_completed_challenges] *)
Definition fetch_last_days_completed_challenges (db : Db) (now : timestamp)
    (guild : option Z) (days : Z) : list Challenge :=
  let back_days := now - timedelta_days days in
  let now_fmt := date_of now in
  let back_fmt := date_of back_days in
  let between c := bool_decide (back_fmt ≤ date_of (created c) ≤ now_fmt) in
  let answered c := bool_decide (responded_at c ≠ None) in
  match guild with
  | None => filter (fun c => between c && answered c) (tbl_challenges db)
  | Some g =>
    filter (fun c => bool_decide (guild_id c = g) && between c && answered c)
           (tbl_challenges db)
  end.

(** * The engine: bot/challenge.py *)

(** ** The chat platform, as far as the engine looks at it *)

Record Role : Set := mkRole {
  role_ident : Z;          (* discord.Role.id *)
  role_mention : string    (* discord.Role.mention *)
}.

Record Guild : Set := mkGuild {
  guild_ident : Z;         (* discord.Guild.id *)
  guild_roles : list Role  (* discord.Guild.roles *)
}.

Record Member : Set := mkMember {
  member_ident : Z;        (* discord.Member.id *)
  member_mention : string  (* discord.Member.mention *)
}.

(** [discord.Message]: [reference] is [message.reference and
    message.reference.message_id]. *)
Record Message : Set := mkMessage {
  msg_ident : Z;           (* message.id *)
  author : Member;
  content : string;
  channel : Z;             (* message.channel.id *)
  msg_guild : Z;           (* message.guild.id *)
  reference : option Z
}.

(** [self.bot]: its own user and the guilds it is a member of. *)
Record Bot : Set := mkBot {
  user : Z;
  guilds : list Guild
}.

(** What a handler sends out. *)
Inductive Outbound : Set :=
  | ChannelSend (channel_id : Z) (text : string)   (* channel.send(text) *)
  | Reply (to : Z) (text : string).                (* message.reply(text) *)

(** [self.bot.dispatch(name, ...)] *)
Inductive Event : Set :=
  | new_challenge (message : Message) (mtype : string)
  | challenge_timeout (c : Challenge) (message : Message)
  | challenge_accepted (c : Challenge) (message : Message).

(** [discord.utils.get(iterable, id=...)]: the first element with that id. *)
Definition get_guild (gs : list Guild) (i : Z) : option Guild :=
  find (fun g => guild_ident g =? i) gs.

Definition get_role (rs : list Role) (i : Z) : option Role :=
  find (fun r => role_ident r =? i) rs.

(** ** State of the engine *)

(** The fields of [ChallengeCog] the handlers read and write, the database
    behind [self.bot.db_path], the clock, and the trace of what was sent and
    dispatched. *)
Record World : Type := mkWorld {
  database : Db;
  clock : timestamp;
  challenges : gmap Z Challenge;
  match_roles : gmap Z (list MatchTypeRole);
  sent : list Outbound;
  dispatched : list Event
}.

(** A coroutine of the cog: it runs on the world and either returns or lets an
    exception escape; what it did before the exception stays done. *)
Definition handler (A : Type) : Type := World → World * result A.

Definition ret {A} (a : A) : handler A := λ w, (w, Ok a).

Definition raise {A} (e : exn) : handler A := λ w, (w, Raise e).

Definition bind {A B} (m : handler A) (k : A → handler B) : handler B :=
  λ w, match m w with
       | (w', Ok a) => k a w'
       | (w', Raise e) => (w', Raise e)
       end.

Declare Scope handler_scope.
Delimit Scope handler_scope with handler.
Notation "'let*' x := m 'in' k" := (bind m (λ x, k))
  (at level 10, x name, m at level 100, k at level 200) : handler_scope.
Notation "m >> k" := (bind m (λ _, k))
  (at level 100, k at level 200, right associativity) : handler_scope.

Definition get_challenges : handler (gmap Z Challenge) := λ w, (w, Ok (challenges w)).

Definition get_match_roles : handler (gmap Z (list MatchTypeRole)) :=
  λ w, (w, Ok (match_roles w)).

Definition set_challenges (m : gmap Z Challenge) : handler unit :=
  λ w, (mkWorld (database w) (clock w) m (match_roles w) (sent w) (dispatched w), Ok tt).

Definition set_match_roles (m : gmap Z (list MatchTypeRole)) : handler unit :=
  λ w, (mkWorld (database w) (clock w) (challenges w) m (sent w) (dispatched w), Ok tt).

Definition send (o : Outbound) : handler unit :=
  λ w, (mkWorld (database w) (clock w) (challenges w) (match_roles w) (sent w ++ [o])
                (dispatched w), Ok tt).

Definition dispatch (e : Event) : handler unit :=
  λ w, (mkWorld (database w) (clock w) (challenges w) (match_roles w) (sent w)
                (dispatched w ++ [e]), Ok tt).

(** A call into crud.py on a connection to the bot's database, at the current
    time. *)
Definition on_db {A} (f : Db → timestamp → Db * result A) : handler A :=
  λ w, let '(d, r) := f (database w) (clock w) in
       (mkWorld d (clock w) (challenges w) (match_roles w) (sent w) (dispatched w), r).

(** A call that leaves a required positional parameter of the callee without
    an argument: Python raises [TypeError] at the call, the body of the callee
    does not run. *)
Definition missing_argument {A} : handler A := raise TypeError.

(** [m[1]] on the result of [re.search]: group 1 of a match; [None] is not
    subscriptable, [TypeError]. *)
Definition subscript (m : option string) : handler string :=
  match m with
  | Some group1 => ret group1
  | None => raise TypeError
  end.

(** What the other coroutines do to the world while this one is suspended in
    [sleep_until]. *)
Definition suspended (others : World → World) : handler unit :=
  λ w, (others w, Ok tt).

(** ** bot/challenge.py *)

(** [MATCH_TYPE_REGEX = re.compile(r'Type: .* (Solo Ultra|Solo)')].

    [group_here] is the tail [ (Solo Ultra|Solo)] tried at one position, the
    first alternative first. *)
Definition group_here (s : string) : option string :=
  if String.prefix " Solo Ultra" s then Some "Solo Ultra"%string
  else if String.prefix " Solo" s then Some "Solo"%string
  else None.

Definition is_newline (c : ascii) : bool := Nat.eqb (nat_of_ascii c) 10.

(** [.* (Solo Ultra|Solo)]: the star is greedy, so a longer run of characters
    other than newline is tried before a shorter one. *)
Fixpoint dot_star_group (s : string) : option string :=
  match s with
  | EmptyString => group_here s
  | String c rest =>
    if is_newline c then group_here s
    else match dot_star_group rest with
         | Some g => Some g
         | None => group_here s
         end
  end.

Fixpoint drop_string (n : nat) (s : string) : string :=
  match n, s with
  | O, _ => s
  | S n', String _ rest => drop_string n' rest
  | S _, EmptyString => EmptyString
  end.

(** The pattern anchored at the start of [s]. *)
Definition match_here (s : string) : option string :=
  if String.prefix "Type: " s then dot_star_group (drop_string 6 s) else None.

(** [re.search(MATCH_TYPE_REGEX, s)], reduced to group 1 of the match: the
    leftmost position at which the pattern matches. *)
Fixpoint re_search_match_type (s : string) : option string :=
  match match_here s with
  | Some g => Some g
  | None =>
    match s with
    | EmptyString => None
    | String _ rest => re_search_match_type rest
    end
  end.

Section ChallengeCog.

Variable bot : Bot.

Local Open Scope handler_scope.

(** [is_match_request] *)
Definition is_match_request (message : Message) : bool :=
  contains "new match request received!" (lower (content message)).

(** [create_new_challenge] *)
Definition create_new_challenge (message : Message) (mtype : string) : handler unit :=
  let* challenge := on_db (λ d now,
      insert_challenge d now (msg_guild message) (channel message)
                       (msg_ident message) mtype None) in
  let* cache := get_challenges in
  set_challenges (<[message_id challenge := challenge]> cache).

(** [answer_challenge] *)
Definition answer_challenge (challenge : Challenge) (responding_member : Member)
    : handler unit :=
  let* updated_challenge := on_db (λ d now,
      respond_to_challenge d now (message_id challenge)
                           (member_ident responding_member)) in
  let* cache := get_challenges in
  set_challenges (<[message_id updated_challenge := updated_challenge]> cache).

(** [add_role] *)
Definition add_role (guild : Z) (mtype : string) (role : Z) : handler unit :=
  let* match_role := on_db (λ d _, create_match_type_role d guild mtype role) in
  let* roles := get_match_roles in
  set_match_roles (<[guild := default [] (roles !! guild) ++ [match_role]]> roles).

(** [remove_role] *)
Definition remove_role (guild : Z) (identifier : Z) : handler unit :=
  on_db (λ d _, delete_match_type_role d identifier) >>
  let* roles := get_match_roles in
  set_match_roles
    (<[guild := filter (λ mr, mtr_id mr ≠ identifier) (default [] (roles !! guild))]> roles).

(** [get_guild_roles] *)
Definition get_guild_roles (cache : gmap Z (list MatchTypeRole)) (guild : Guild)
    (mtype : option string) : list Role :=
  let roles := default [] (cache !! guild_ident guild) in
  let roles :=
    match mtype with
    | Some t =>
      map (λ mr, get_role (guild_roles guild) (role_id mr))
          (filter (λ mr, match_type mr = t) roles)
    | None => map (λ mr, get_role (guild_roles guild) (role_id mr)) roles
    end in
  omap (λ r, r) roles.

(** [' '.join(...)] *)
Fixpoint join (sep : string) (parts : list string) : string :=
  match parts with
  | [] => ""
  | [p] => p
  | p :: rest => p +:+ sep +:+ join sep rest
  end.

(** [on_new_challenge], up to the [sleep_until]. *)
Definition on_new_challenge_arm (message : Message) (mtype : string) : handler unit :=
  create_new_challenge message mtype >>
  send (ChannelSend (channel message)
    "This is a placeholder to show I received the message. Timeout is currently 1 minute").

(** [on_new_challenge], from the wake-up on.  On a cache miss the code calls
    [fetch_challenge(message.id)]: one argument for the two parameters [db]
    and [message_id], hence [missing_argument].  [None] for [found] is the
    early [return]. *)
Definition on_new_challenge_fire (message : Message) : handler unit :=
  let* cache := get_challenges in
  let* found :=
    match cache !! msg_ident message with
    | Some challenge => ret (Some challenge)
    | None =>
      let* challenge := missing_argument (A := option Challenge) in
      match challenge with
      | None => ret None
      | Some challenge =>
        set_challenges (<[msg_ident message := challenge]> cache) >>
        ret (Some challenge)
      end
    end in
  match found with
  | Some challenge =>
    if is_open challenge
    then dispatch (challenge_timeout challenge message)
    else ret tt
  | None => ret tt
  end.

(** [on_new_challenge]; [others] is what happens in the world during the
    wait. *)
Definition on_new_challenge (others : World → World) (message : Message)
    (mtype : string) : handler unit :=
  on_new_challenge_arm message mtype >>
  suspended others >>
  on_new_challenge_fire message.

(** [on_challenge_timeout]: [del self.challenges[...]] raises [KeyError] on
    a key that is not in the dictionary. *)
Definition on_challenge_timeout (challenge : Challenge) (message : Message)
    : handler unit :=
  let* cache := get_challenges in
  match cache !! message_id challenge with
  | None => raise KeyError
  | Some _ =>
    set_challenges (delete (message_id challenge) cache) >>
    match get_guild (guilds bot) (guild_id challenge) with
    | Some guild =>
      let* registry := get_match_roles in
      let roles := get_guild_roles registry guild (Some (challenge_type challenge)) in
      let role_mentions := join " " (map role_mention roles) in
      send (Reply (msg_ident message) (role_mentions +:+ " This order is still up!"))
    | None => ret tt
    end
  end.

(** [on_challenge_accepted] *)
Definition on_challenge_accepted (challenge : Challenge) (message : Message)
    : handler unit :=
  answer_challenge challenge (author message) >>
  send (ChannelSend (channel message)
                    ("I see you! " +:+ member_mention (author message))).

(** [on_message] *)
Definition on_message (message : Message) : handler unit :=
  if bool_decide (member_ident (author message) = user bot) then ret tt
  else if is_match_request message then
    let mtype := re_search_match_type (content message) in
    let* group1 := subscript mtype in
    dispatch (new_challenge message group1)
  else
    let* cache := get_challenges in
    match reference message ≫= (λ ref_id, cache !! ref_id) with
    | Some challenge =>
      if contains "accept" (lower (content message))
      then dispatch (challenge_accepted challenge message)
      else ret tt
    | None => ret tt
    end.

End ChallengeCog.

(** * Specification-side definitions and concrete inputs *)

(** A mapping for the triple is stored. *)
Definition mapped (db : Db) (guild : Z) (mtype : string) (role : Z) : Prop :=
  ∃ r, r ∈ tbl_match_type_roles db ∧
       mtr_guild_id r = guild ∧ match_type r = mtype ∧ role_id r = role.

(** The specification's words for the rows of the history query: answered,
    created on a calendar day from [days] days before today up to today, both
    ends included, and of the guild when one is asked for. *)
Definition completed_in_window (now : timestamp) (guild : option Z) (days : Z)
    (c : Challenge) : Prop :=
  responded_at c ≠ None ∧
  date_of now - days ≤ date_of (created c) ≤ date_of now ∧
  match guild with Some g => guild_id c = g | None => True end.

Global Instance completed_in_window_dec now guild days c :
  Decision (completed_in_window now guild days c).
Proof. unfold completed_in_window. destruct guild; apply _. Defined.


(** A bot that is in no guild, a member, and a few messages, for the concrete
    runs below. *)
Definition lone_bot : Bot := mkBot 1 [].

Definition alice : Member := mkMember 2 "<@2>".

Definition request_without_type : Message :=
  mkMessage 10 alice "New match request received!" 20 30 None.

Definition request_solo : Message :=
  mkMessage 10 alice "New match request received! Type: 1v1 Solo" 20 30 None.

Definition accept_reply : Message :=
  mkMessage 11 alice "I accept" 20 30 (Some 10).

Definition open_challenge : Challenge :=
  mkChallenge 1 100 30 20 10 "solo" None None.

Definition answered_challenge : Challenge :=
  mkChallenge 1 100 30 20 10 "solo" (Some 7) (Some 150).

Definition world_of (d : Db) (cache : gmap Z Challenge) : World :=
  mkWorld d 200 cache ∅ [] [].

Definition pinged_role : Role := mkRole 5 "<@&5>".

Definition bot_in_guild : Bot := mkBot 1 [mkGuild 30 [pinged_role]].

Definition solo_mapping : MatchTypeRole := mkMatchTypeRole 1 30 "solo" 5.

Definition world_with_roles : World :=
  mkWorld (mkDb [open_challenge] [solo_mapping]) 200
          {[10 := open_challenge]} {[30 := [solo_mapping]]} [] [].

(** * More of bot/challenge.py, and bot/common.py *)

(** A dict comprehension [{key(x): val(x) for x in l}]: a later element
    replaces an earlier one that has the same key. *)
Definition dict_of {A V} (key : A → Z) (val : A → V) (l : list A) : gmap Z V :=
  foldl (λ m x, <[key x := val x]> m) ∅ l.

Definition get_database : handler Db := λ w, (w, Ok (database w)).

(** [for x in l: body(x)] in a coroutine: an exception ends the loop. *)
Fixpoint for_each {A} (l : list A) (body : A → handler unit) : handler unit :=
  match l with
  | [] => ret tt
  | x :: rest => bind (body x) (λ _, for_each rest body)
  end.

(** The body of the loop of [cog_load]: the mapping is appended to the list of
    its guild, which is created empty when the guild has none. *)
Definition cache_role (m : gmap Z (list MatchTypeRole)) (mr : MatchTypeRole)
    : gmap Z (list MatchTypeRole) :=
  <[mtr_guild_id mr := default [] (m !! mtr_guild_id mr) ++ [mr]]> m.

Section MoreOfTheCog.

Local Open Scope handler_scope.

(** [discord.Role.name], for the answer of [set_role_cmd]. *)
Variable role_name : Role → string.

(** [cog_load] *)
Definition cog_load : handler unit :=
  let* d := get_database in
  let unresponded := fetch_all_challenges d true in
  let match_type_roles := fetch_roles d in
  set_challenges (dict_of message_id (λ c, c) unresponded) >>
  let* roles := get_match_roles in
  set_match_roles (foldl cache_role roles match_type_roles).

(** [on_guild_role_delete]; [guild] is [role.guild.id], [role] is [role.id].
    The loop runs over the list that was in the cache when it started:
    [remove_role] puts a new list in the cache and leaves that one alone. *)
Definition on_guild_role_delete (guild role : Z) : handler unit :=
  let* roles := get_match_roles in
  for_each (default [] (roles !! guild))
           (λ r, if bool_decide (role_id r = role)
                 then remove_role guild (mtr_id r)
                 else ret tt).

(** [set_role_cmd]; [itx_guild_id] is [itx.guild_id], the result is the text
    of [itx.response.send_message]. *)
Definition set_role_cmd (itx_guild_id : Z) (mtype : string) (role : Role)
    : handler string :=
  let* cache := get_match_roles in
  let guild_roles := default [] (cache !! itx_guild_id) in
  let roles_mapping :=
    dict_of role_id mtr_id (filter (λ r, match_type r = mtype) guild_roles) in
  match roles_mapping !! role_ident role with
  | Some identifier =>
    remove_role itx_guild_id identifier >>
    ret ("(-) " +:+ role_name role)
  | None =>
    add_role itx_guild_id mtype (role_ident role) >>
    ret ("(+) " +:+ role_name role)
  end.

End MoreOfTheCog.

(** ** bot/common.py *)

(** [periods] of [td_format] *)
Definition periods : list (string * Z) :=
  [("year", 60*60*24*365); ("month", 60*60*24*30); ("day", 60*60*24);
   ("hour", 60*60); ("minute", 60); ("second", 1)]%string.

(** ["%s %s%s" % (period_value, period_name, has_s)] *)
Definition period_text (period_value : Z) (period_name : string) : string :=
  let has_s := if bool_decide (period_value > 1) then "s" else "" in
  pretty period_value +:+ " " +:+ period_name +:+ has_s.

(** One turn of the loop of [td_format], on the pair of [strings] and
    [seconds]. *)
Definition td_step (st : list string * Z) (period : string * Z) : list string * Z :=
  let '(strings, seconds) := st in
  let '(period_name, period_seconds) := period in
  if bool_decide (seconds > period_seconds) then
    let period_value := seconds `div` period_seconds in
    let seconds := seconds `mod` period_seconds in
    (strings ++ [period_text period_value period_name], seconds)
  else (strings, seconds).

(** [td_format], from its second statement on: [seconds] is
    [int(td_object.total_seconds())]. *)
Definition td_format (seconds : Z) : string :=
  join ", " (fst (foldl td_step ([], seconds) periods)).

(** * Invariants of the engine *)

(** The columns that [respond_to_challenge] does not write. *)
Definition fixed_columns (c : Challenge) : Z * timestamp * Z * Z * Z * string :=
  (challenge_id c, created c, guild_id c, text_channel_id c, message_id c,
   challenge_type c).

(** Every challenge in the cache is the stored challenge of its key. *)
Definition cache_coherent (w : World) : Prop :=
  ∀ k c, challenges w !! k = Some c → fetch_challenge (database w) k = Some c.

Definition roles_of_guild (db : Db) (g : Z) : list MatchTypeRole :=
  filter (λ r, mtr_guild_id r = g) (fetch_roles db).

Definition triple (r : MatchTypeRole) : Z * string * Z :=
  (mtr_guild_id r, match_type r, role_id r).

(** The cached list of every guild is the list of the stored mappings of the
    guild, and the table keeps its primary key and its unique index. *)
Definition registry_ok (w : World) : Prop :=
  (∀ g, default [] (match_roles w !! g) = roles_of_guild (database w) g) ∧
  NoDup (map mtr_id (fetch_roles (database w))) ∧
  NoDup (map triple (fetch_roles (database w))).

(** The periods [td_format] reports, as numbers: the value of each period
    that is reported, with the period, and the seconds left over. *)
Definition td_count (st : list (Z * (string * Z)) * Z) (period : string * Z)
    : list (Z * (string * Z)) * Z :=
  let '(counts, seconds) := st in
  if bool_decide (seconds > period.2)
  then (counts ++ [(seconds `div` period.2, period)], seconds `mod` period.2)
  else (counts, seconds).

Definition td_counts (seconds : Z) : list (Z * (string * Z)) * Z :=
  foldl td_count ([], seconds) periods.

(** The seconds that a list of reported periods stands for. *)
Definition total (counts : list (Z * (string * Z))) : Z :=
  foldr (λ vp acc, vp.1 * vp.2.2 + acc) 0 counts.

Definition count_text (vp : Z * (string * Z)) : string :=
  period_text vp.1 vp.2.1.

(** The row that [create_new_challenge] inserts for a message. *)
Definition registered (w : World) (message : Message) (mtype : string) : Challenge :=
  mkChallenge (next_rowid (map challenge_id (tbl_challenges (database w))))
              (clock w) (msg_guild message) (channel message) (msg_ident message)
              (lower mtype) None None.

(** What happens during the wait of [on_new_challenge] when the challenge of
    message [mid] is accepted by the reply [reply]: [on_challenge_accepted]
    runs on the cached challenge. *)
Definition accepted_during_wait (mid : Z) (reply : Message) (w : World) : World :=
  match challenges w !! mid with
  | Some c => fst (on_challenge_accepted c reply w)
  | None => w
  end.

(** * Properties of the persistence layer *)

Section CrudFacts.

Implicit Types (db : Db) (c : Challenge) (rows : list Challenge).

Lemma has_message_id_set_response now member mid c :
  has_message_id mid (set_response now member c) = has_message_id mid c.
Proof. reflexivity. Qed.

(** The update does not move rows: the first row with the message id after
    the update is the updated first row. *)
Lemma find_update_response now mid member rows :
  find (has_message_id mid) (update_response now mid member rows)
  = set_response now member <$> find (has_message_id mid) rows.
Proof.
  induction rows as [|c rows IH]; [done|].
  cbn. destruct (has_message_id mid c) eqn:Hc.
  - by rewrite has_message_id_set_response, Hc.
  - by rewrite Hc.
Qed.

(** An update that matches no row changes nothing. *)
Lemma update_response_absent now mid member rows :
  find (has_message_id mid) rows = None →
  update_response now mid member rows = rows.
Proof.
  unfold update_response.
  induction rows as [|c rows IH]; [done|].
  cbn. destruct (has_message_id mid c) eqn:Hc; [done|].
  intros H. f_equal. by apply IH.
Qed.


Lemma find_app_absent {A} (p : A → bool) (l : list A) (x : A) :
  find p l = None → find p (l ++ [x]) = if p x then Some x else None.
Proof.
  induction l as [|y l IH]; [done|].
  cbn. destruct (p y); [done|]. exact IH.
Qed.

Lemma with_challenges_same db : with_challenges db (tbl_challenges db) = db.
Proof. by destruct db. Qed.

(** What [respond_to_challenge] does on a message id that has no row. *)
Lemma respond_to_challenge_absent db now mid member :
  fetch_challenge db mid = None →
  respond_to_challenge db now mid member = (db, Raise TypeError).
Proof.
  unfold fetch_challenge, respond_to_challenge. intros H.
  rewrite H, find_update_response, H. cbn.
  by rewrite update_response_absent, with_challenges_same.
Qed.

(** What it does on an unanswered challenge. *)
Lemma respond_to_challenge_open db now mid member c :
  fetch_challenge db mid = Some c →
  responding_member_id c = None →
  respond_to_challenge db now mid member
  = (with_challenges db (update_response now mid member (tbl_challenges db)),
     Ok (set_response now member c)).
Proof.
  unfold fetch_challenge, respond_to_challenge. intros H Hopen.
  rewrite H, find_update_response, H. destruct c; cbn in *. by subst.
Qed.

(** What it does on an answered one. *)
Lemma respond_to_challenge_answered db now mid member c who :
  fetch_challenge db mid = Some c →
  responding_member_id c = Some who →
  respond_to_challenge db now mid member = (db, Raise ChallengeResponded).
Proof.
  unfold fetch_challenge, respond_to_challenge. intros H Hwho.
  rewrite H. destruct c; cbn in *. by subst.
Qed.

End CrudFacts.



(** C2, as the claim has it, fails: on a database with no challenge the call
    does not end in [NotFound]. *)
Lemma respond_to_challenge_absent_not_NotFound :
  fetch_challenge empty_db 1 = None ∧
  snd (respond_to_challenge empty_db 0 1 2) ≠ Raise NotFound.
Proof. split; [reflexivity|]. cbn. discriminate. Qed.

(** C2, amended.  On a message id that has no challenge row,
    [respond_to_challenge] fails, with an error that is neither
    [ChallengeResponded] nor [NotFound], and the database is left as it
    was. *)
Theorem respond_to_challenge_missing (db : Db) (now : timestamp) (mid member : Z) :
  fetch_challenge db mid = None →
  ∃ e, respond_to_challenge db now mid member = (db, Raise e) ∧
       e ≠ ChallengeResponded ∧ e ≠ NotFound.
Proof.
  intros H. exists TypeError.
  by rewrite respond_to_challenge_absent.
Qed.

Lemma respond_to_challenge_missing_witness :
  ∃ e, respond_to_challenge empty_db 0 1 2 = (empty_db, Raise e) ∧
       e ≠ ChallengeResponded ∧ e ≠ NotFound.
Proof. apply (respond_to_challenge_missing empty_db 0 1 2). reflexivity. Defined.

(** C9.  Inserting a challenge under a message id that no stored challenge
    has, and fetching by that message id, gives back the inserted record: the
    arguments of the insert, with the type lower-cased and the creation time
    defaulting to the current time, and no response. *)
Theorem insert_then_fetch (db : Db) (now : timestamp) (guild text_channel mid : Z)
    (ctype : string) (created_at : option timestamp) :
  fetch_challenge db mid = None →
  ∃ db' c,
    insert_challenge db now guild text_channel mid ctype created_at = (db', Ok c) ∧
    fetch_challenge db' mid = Some c ∧
    created c = default now created_at ∧
    guild_id c = guild ∧
    text_channel_id c = text_channel ∧
    message_id c = mid ∧
    challenge_type c = lower ctype ∧
    responding_member_id c = None ∧
    responded_at c = None.
Proof.
  intros Hfresh. eexists _, _. split; [reflexivity|].
  split.
  - unfold fetch_challenge in *. cbn.
    rewrite find_app_absent by done.
    unfold has_message_id. cbn. by rewrite Z.eqb_refl.
  - by destruct created_at.
Qed.

Lemma insert_then_fetch_witness :
  ∃ db' c,
    insert_challenge empty_db 100 123456 654321 789 "Solo Ultra" None = (db', Ok c) ∧
    fetch_challenge db' 789 = Some c ∧
    created c = default 100 None ∧
    guild_id c = 123456 ∧
    text_channel_id c = 654321 ∧
    message_id c = 789 ∧
    challenge_type c = lower "Solo Ultra" ∧
    responding_member_id c = None ∧
    responded_at c = None.
Proof.
  apply (insert_then_fetch empty_db 100 123456 654321 789 "Solo Ultra" None).
  reflexivity.
Defined.

(** * Role mappings *)

Section RoleFacts.

Implicit Types (db : Db) (r : MatchTypeRole).

Lemma existsb_same_triple db guild mtype role :
  existsb (same_triple guild mtype role) (tbl_match_type_roles db) = true
  ↔ mapped db guild mtype role.
Proof.
  rewrite existsb_exists. unfold mapped, same_triple.
  split; intros (r & Hr & H); exists r.
  - apply list_elem_of_In in Hr. by apply bool_decide_eq_true in H.
  - apply list_elem_of_In in Hr. by rewrite bool_decide_eq_true.
Qed.

Lemma create_match_type_role_fresh db guild mtype role :
  ¬ mapped db guild mtype role →
  create_match_type_role db guild mtype role
  = (let row := mkMatchTypeRole (next_rowid (map mtr_id (tbl_match_type_roles db)))
                                guild mtype role in
     (with_match_type_roles db (tbl_match_type_roles db ++ [row]), Ok row)).
Proof.
  intros H. unfold create_match_type_role.
  destruct (existsb _ _) eqn:E; [|done].
  by apply existsb_same_triple in E.
Qed.

Lemma create_match_type_role_taken db guild mtype role :
  mapped db guild mtype role →
  create_match_type_role db guild mtype role = (db, Raise RoleExists).
Proof.
  intros H. unfold create_match_type_role.
  apply existsb_same_triple in H. by rewrite H.
Qed.

Lemma mapped_after_create db guild mtype role g t x :
  mapped (with_match_type_roles db
            (tbl_match_type_roles db ++ [mkMatchTypeRole x guild mtype role])) g t role
  ↔ mapped db g t role ∨ (g = guild ∧ t = mtype).
Proof.
  unfold mapped. cbn. split.
  - intros (r & Hr & Hg & Ht & Hrole). apply elem_of_app in Hr as [Hr|Hr].
    + left. by exists r.
    + apply list_elem_of_singleton in Hr. subst r. cbn in *. by right.
  - intros [(r & Hr & H)|[-> ->]].
    + exists r. split; [|done]. apply elem_of_app. by left.
    + eexists. split; [apply elem_of_app; right; apply list_elem_of_singleton; done|done].
Qed.

Lemma filter_keeps_all {A} (P : A → Prop) `{!∀ x, Decision (P x)} (l : list A) :
  (∀ x, x ∈ l → P x) → filter P l = l.
Proof.
  induction l as [|x l IH]; [done|]. intros Hall.
  rewrite filter_cons_True by (apply Hall; left).
  f_equal. apply IH. intros y Hy. apply Hall. by right.
Qed.

Lemma with_match_type_roles_same db :
  with_match_type_roles db (tbl_match_type_roles db) = db.
Proof. by destruct db. Qed.

(** Deleting an id that no row has changes nothing. *)
Lemma delete_match_type_role_absent db row_id :
  (∀ r, r ∈ tbl_match_type_roles db → mtr_id r ≠ row_id) →
  delete_match_type_role db row_id = (db, Ok tt).
Proof.
  intros H. unfold delete_match_type_role.
  rewrite filter_keeps_all by done.
  by rewrite with_match_type_roles_same.
Qed.

(** Deleting a second time changes nothing more. *)
Lemma delete_match_type_role_again db row_id :
  delete_match_type_role (fst (delete_match_type_role db row_id)) row_id
  = delete_match_type_role db row_id.
Proof.
  apply delete_match_type_role_absent. cbn.
  intros r Hr. by apply list_elem_of_filter in Hr as [? _].
Qed.

End RoleFacts.

(** C8.  A triple (guild, type, role) that is not mapped: creating the mapping
    succeeds and stores the triple; creating it again raises [RoleExists] and
    leaves the database as it was.  Deleting never fails, changes nothing when
    no row has the id, and changes nothing more when repeated.  After the
    created record is deleted the triple can be created again. *)
Theorem create_match_type_role_twice (db : Db) (guild : Z) (mtype : string) (role : Z) :
  ¬ mapped db guild mtype role →
  ∃ db1 row,
    create_match_type_role db guild mtype role = (db1, Ok row) ∧
    (mtr_guild_id row, match_type row, role_id row) = (guild, mtype, role) ∧
    row ∈ fetch_roles db1 ∧
    create_match_type_role db1 guild mtype role = (db1, Raise RoleExists) ∧
    (∀ d i, snd (delete_match_type_role d i) = Ok tt) ∧
    (∀ d i, (∀ r, r ∈ fetch_roles d → mtr_id r ≠ i) →
            delete_match_type_role d i = (d, Ok tt)) ∧
    (∀ d i, delete_match_type_role (fst (delete_match_type_role d i)) i
            = delete_match_type_role d i) ∧
    ∃ db2 db3 row',
      delete_match_type_role db1 (mtr_id row) = (db2, Ok tt) ∧
      (row ∉ fetch_roles db2) ∧
      create_match_type_role db2 guild mtype role = (db3, Ok row') ∧
      (mtr_guild_id row', match_type row', role_id row') = (guild, mtype, role).
Proof.
  intros Hfresh.
  eexists _, _. split; [by apply create_match_type_role_fresh|].
  split; [done|].
  split; [cbn; apply elem_of_app; right; by apply list_elem_of_singleton|].
  split.
  { apply create_match_type_role_taken, mapped_after_create. by right. }
  split; [done|].
  split; [apply delete_match_type_role_absent|].
  split; [apply delete_match_type_role_again|].
  eexists _, _, _. split; [reflexivity|].
  split.
  { cbn. intros H. apply list_elem_of_filter in H as [H _]. by apply H. }
  assert (¬ mapped
            (with_match_type_roles db
               (filter (λ r, mtr_id r ≠ next_rowid (map mtr_id (tbl_match_type_roles db)))
                  (tbl_match_type_roles db ++
                   [mkMatchTypeRole (next_rowid (map mtr_id (tbl_match_type_roles db)))
                                    guild mtype role])))
            guild mtype role) as Hgone; [|by rewrite create_match_type_role_fresh].
  intros (r & Hr & Hg & Ht & Hrole). cbn in Hr.
  apply list_elem_of_filter in Hr as [Hid Hr].
  apply elem_of_app in Hr as [Hr|Hr].
  - apply Hfresh. by exists r.
  - apply list_elem_of_singleton in Hr. by subst r.
Qed.

Lemma create_match_type_role_twice_witness :
  ¬ mapped empty_db 1234 "solo" 5678 ∧
  ∃ db1 row,
    create_match_type_role empty_db 1234 "solo" 5678 = (db1, Ok row) ∧
    (mtr_guild_id row, match_type row, role_id row) = (1234, "solo"%string, 5678) ∧
    row ∈ fetch_roles db1 ∧
    create_match_type_role db1 1234 "solo" 5678 = (db1, Raise RoleExists) ∧
    (∀ d i, snd (delete_match_type_role d i) = Ok tt) ∧
    (∀ d i, (∀ r, r ∈ fetch_roles d → mtr_id r ≠ i) →
            delete_match_type_role d i = (d, Ok tt)) ∧
    (∀ d i, delete_match_type_role (fst (delete_match_type_role d i)) i
            = delete_match_type_role d i) ∧
    ∃ db2 db3 row',
      delete_match_type_role db1 (mtr_id row) = (db2, Ok tt) ∧
      (row ∉ fetch_roles db2) ∧
      create_match_type_role db2 1234 "solo" 5678 = (db3, Ok row') ∧
      (mtr_guild_id row', match_type row', role_id row') = (1234, "solo"%string, 5678).
Proof.
  assert (¬ mapped empty_db 1234 "solo" 5678) as H.
  { intros (r & Hr & _). cbn in Hr. by apply elem_of_nil in Hr. }
  split; [exact H|].
  exact (create_match_type_role_twice empty_db 1234 "solo" 5678 H).
Defined.

(** C10.  [create_match_type_role] stores the type text as it is given: for
    two texts that differ in letter case only, the two triples with the same
    guild and role are created one after the other without [RoleExists], and
    both rows are stored, each with its own text.  [insert_challenge] stores
    the lower-cased text, the same for both. *)
Theorem create_match_type_role_keeps_case (db : Db) (guild role : Z) (t1 t2 : string) :
  t1 ≠ t2 →
  lower t1 = lower t2 →
  ¬ mapped db guild t1 role →
  ¬ mapped db guild t2 role →
  ∃ db1 row1 db2 row2,
    create_match_type_role db guild t1 role = (db1, Ok row1) ∧
    create_match_type_role db1 guild t2 role = (db2, Ok row2) ∧
    match_type row1 = t1 ∧
    match_type row2 = t2 ∧
    row1 ≠ row2 ∧
    row1 ∈ fetch_roles db2 ∧
    row2 ∈ fetch_roles db2 ∧
    ∀ d now g ch mid created_at,
      ∃ d1 c1 d2 c2,
        insert_challenge d now g ch mid t1 created_at = (d1, Ok c1) ∧
        insert_challenge d now g ch mid t2 created_at = (d2, Ok c2) ∧
        challenge_type c1 = lower t1 ∧
        challenge_type c2 = challenge_type c1.
Proof.
  intros Hne Hlower Hfresh1 Hfresh2.
  eexists _, _, _, _. split; [by apply create_match_type_role_fresh|].
  split.
  { apply create_match_type_role_fresh. rewrite mapped_after_create.
    intros [H|[_ H]]; [by apply Hfresh2|by apply Hne]. }
  split; [done|]. split; [done|].
  split; [intros [=]; by apply Hne|].
  split.
  { cbn. rewrite !elem_of_app. left. right. by apply list_elem_of_singleton. }
  split.
  { cbn. rewrite !elem_of_app. right. by apply list_elem_of_singleton. }
  intros d now g ch mid created_at.
  eexists _, _, _, _. split; [reflexivity|]. split; [reflexivity|].
  cbn. by rewrite Hlower.
Qed.

Lemma create_match_type_role_keeps_case_witness :
  ∃ db1 row1 db2 row2,
    create_match_type_role empty_db 1234 "Solo" 5678 = (db1, Ok row1) ∧
    create_match_type_role db1 1234 "solo" 5678 = (db2, Ok row2) ∧
    match_type row1 = "Solo"%string ∧
    match_type row2 = "solo"%string ∧
    row1 ≠ row2 ∧
    row1 ∈ fetch_roles db2 ∧
    row2 ∈ fetch_roles db2 ∧
    ∀ d now g ch mid created_at,
      ∃ d1 c1 d2 c2,
        insert_challenge d now g ch mid "Solo" created_at = (d1, Ok c1) ∧
        insert_challenge d now g ch mid "solo" created_at = (d2, Ok c2) ∧
        challenge_type c1 = lower "Solo" ∧
        challenge_type c2 = challenge_type c1.
Proof.
  apply (create_match_type_role_keeps_case empty_db 1234 5678 "Solo" "solo").
  - discriminate.
  - reflexivity.
  - intros (r & Hr & _). cbn in Hr. by apply elem_of_nil in Hr.
  - intros (r & Hr & _). cbn in Hr. by apply elem_of_nil in Hr.
Defined.

(** * The history query *)

Section HistoryFacts.




End HistoryFacts.

(** The window is one of calendar days, not of elapsed time: with [now] at
    noon of day 3, an answered challenge created one hour into day 0 is older
    than three days and is returned for [days = 3]. *)
Example history_boundary_day_included :
  let hour := 3600 * 1000000 in
  let now := timedelta_days 3 + 12 * hour in
  let c := mkChallenge 1 hour 30 20 10 "solo" (Some 7) (Some (2 * hour)) in
  timedelta_days 3 < now - created c ∧
  fetch_last_days_completed_challenges (mkDb [c] []) now None 3 = [c].
Proof. split; reflexivity. Qed.


(** * Properties of the lifecycle engine *)

Section EngineFacts.

Variable bot : Bot.

Lemma world_eta (w : World) :
  mkWorld (database w) (clock w) (challenges w) (match_roles w) (sent w) (dispatched w) = w.
Proof. by destruct w. Qed.

(** A request whose type cannot be read makes [on_message] raise. *)
Lemma on_message_unparsed_request (message : Message) (w : World) :
  member_ident (author message) ≠ user bot →
  is_match_request message = true →
  re_search_match_type (content message) = None →
  on_message bot message w = (w, Raise TypeError).
Proof.
  intros Hauthor Hreq Hre. unfold on_message.
  rewrite bool_decide_eq_false_2 by done.
  by rewrite Hreq, Hre.
Qed.

(** A request whose type can be read is dispatched as a new challenge. *)
Lemma on_message_parsed_request (message : Message) (w : World) (mtype : string) :
  member_ident (author message) ≠ user bot →
  is_match_request message = true →
  re_search_match_type (content message) = Some mtype →
  on_message bot message w = dispatch (new_challenge message mtype) w.
Proof.
  intros Hauthor Hreq Hre. unfold on_message.
  rewrite bool_decide_eq_false_2 by done.
  by rewrite Hreq, Hre.
Qed.

(** At wake-up, a challenge missing from the cache makes the check raise,
    whatever the database holds. *)
Lemma on_new_challenge_fire_cache_miss (message : Message) (w : World) :
  challenges w !! msg_ident message = None →
  on_new_challenge_fire message w = (w, Raise TypeError).
Proof.
  intros H. unfold on_new_challenge_fire, bind, get_challenges, raise.
  by rewrite H.
Qed.

(** At wake-up, a cached challenge that is answered: nothing happens. *)
Lemma on_new_challenge_fire_answered (message : Message) (w : World) (c : Challenge) :
  challenges w !! msg_ident message = Some c →
  is_open c = false →
  on_new_challenge_fire message w = (w, Ok tt).
Proof.
  intros H Hclosed. unfold on_new_challenge_fire, bind, get_challenges, ret.
  by rewrite H, Hclosed.
Qed.

(** At wake-up, a cached challenge that is open: the timeout is
    dispatched. *)
Lemma on_new_challenge_fire_open (message : Message) (w : World) (c : Challenge) :
  challenges w !! msg_ident message = Some c →
  is_open c = true →
  on_new_challenge_fire message w = dispatch (challenge_timeout c message) w.
Proof.
  intros H Hopen. unfold on_new_challenge_fire, bind, get_challenges, ret.
  by rewrite H, Hopen.
Qed.

(** [get_guild_roles] with a match type: the roles of the guild that the
    mappings cached for the guild and the type name. *)
Lemma elem_of_get_guild_roles (cache : gmap Z (list MatchTypeRole)) (guild : Guild)
    (mtype : string) (r : Role) :
  r ∈ get_guild_roles cache guild (Some mtype) ↔
  ∃ mr, mr ∈ default [] (cache !! guild_ident guild) ∧
        match_type mr = mtype ∧
        get_role (guild_roles guild) (role_id mr) = Some r.
Proof.
  unfold get_guild_roles. rewrite list_elem_of_omap. split.
  - intros (o & Ho & ->). apply list_elem_of_fmap in Ho as (mr & Hmr & Hin).
    apply list_elem_of_filter in Hin as [Ht Hin]. by exists mr.
  - intros (mr & Hin & Ht & Hr). exists (Some r). split; [|done].
    apply list_elem_of_fmap. exists mr. split; [done|].
    by apply list_elem_of_filter.
Qed.

Lemma get_guild_roles_unmapped (cache : gmap Z (list MatchTypeRole)) (guild : Guild)
    (mtype : option string) :
  cache !! guild_ident guild = None →
  get_guild_roles cache guild mtype = [].
Proof. intros H. unfold get_guild_roles. rewrite H. by destruct mtype. Qed.

End EngineFacts.

(** C3.  The message "New match request received!" from a member other than
    the bot is recognised as a match request, the pattern finds no type in
    it, and [on_message] ends in [TypeError] instead of returning: the
    subscript [match_type[1]] is applied to the [None] of [re.search]. *)
Theorem on_message_request_without_type_raises (w : World) :
  is_match_request request_without_type = true ∧
  re_search_match_type (content request_without_type) = None ∧
  on_message lone_bot request_without_type w = (w, Raise TypeError).
Proof.
  split; [reflexivity|]. split; [reflexivity|].
  by apply on_message_unparsed_request.
Qed.

(** C4.  The timeout check on a challenge that is not in the cache raises
    [TypeError], both when the database holds the challenge and when it does
    not: the database is not read, and the check is not abandoned
    silently.  The same happens in a whole run of [on_new_challenge] during
    whose wait the cache is emptied. *)
Theorem on_new_challenge_fire_missing_raises :
  let stored := mkDb [open_challenge] [] in
  fetch_challenge stored (msg_ident request_solo) = Some open_challenge ∧
  on_new_challenge_fire request_solo (world_of stored ∅)
  = (world_of stored ∅, Raise TypeError) ∧
  fetch_challenge empty_db (msg_ident request_solo) = None ∧
  on_new_challenge_fire request_solo (world_of empty_db ∅)
  = (world_of empty_db ∅, Raise TypeError) ∧
  snd (on_new_challenge
         (λ w, mkWorld (database w) (clock w) ∅ (match_roles w) (sent w) (dispatched w))
         request_solo "Solo" (world_of empty_db ∅))
  = Raise TypeError.
Proof.
  cbn zeta. split; [reflexivity|].
  split; [by apply on_new_challenge_fire_cache_miss|].
  split; [reflexivity|].
  split; [by apply on_new_challenge_fire_cache_miss|].
  reflexivity.
Qed.

(** C5, as the claim has it, fails: the handler does not recover from the
    duplicate, [ChallengeResponded] escapes from [on_challenge_accepted]. *)
Lemma on_challenge_accepted_duplicate_escapes :
  let w := world_of (mkDb [answered_challenge] []) {[10 := answered_challenge]} in
  on_challenge_accepted answered_challenge accept_reply w
  = (w, Raise ChallengeResponded) ∧
  is_ok (snd (on_challenge_accepted answered_challenge accept_reply w)) = false.
Proof. split; reflexivity. Qed.

(** C5, amended.  An acceptance of a challenge whose stored row has a
    respondent: [on_challenge_accepted] ends in [ChallengeResponded], which
    it does not handle; nothing is sent, and the cache and the database are
    as they were. *)
Theorem on_challenge_accepted_duplicate (w : World) (challenge : Challenge)
    (message : Message) (stored : Challenge) (who : Z) :
  fetch_challenge (database w) (message_id challenge) = Some stored →
  responding_member_id stored = Some who →
  let r := on_challenge_accepted challenge message w in
  snd r = Raise ChallengeResponded ∧
  sent (fst r) = sent w ∧
  challenges (fst r) = challenges w ∧
  database (fst r) = database w ∧
  fst r = w.
Proof.
  intros Hstored Hwho.
  unfold on_challenge_accepted, answer_challenge, bind, on_db.
  rewrite (respond_to_challenge_answered _ _ _ _ _ _ Hstored Hwho).
  cbn. by rewrite world_eta.
Qed.

Lemma on_challenge_accepted_duplicate_witness :
  let w := world_of (mkDb [answered_challenge] []) {[10 := answered_challenge]} in
  let r := on_challenge_accepted answered_challenge accept_reply w in
  snd r = Raise ChallengeResponded ∧
  sent (fst r) = sent w ∧
  challenges (fst r) = challenges w ∧
  database (fst r) = database w ∧
  fst r = w.
Proof.
  apply (on_challenge_accepted_duplicate
           (world_of (mkDb [answered_challenge] []) {[10 := answered_challenge]})
           answered_challenge accept_reply answered_challenge 7);
    reflexivity.
Defined.

(** C6, as the claim has it, fails: when the guild of the challenge is not
    among the guilds of the bot, the timeout drops the challenge from the
    cache and sends nothing. *)
Lemma on_challenge_timeout_unknown_guild_silent :
  let w := world_of (mkDb [open_challenge] []) {[10 := open_challenge]} in
  let r := on_challenge_timeout lone_bot open_challenge request_solo w in
  snd r = Ok tt ∧ challenges (fst r) !! 10 = None ∧ sent (fst r) = [].
Proof. cbn zeta. split; [reflexivity|]. split; reflexivity. Qed.

(** C6, amended.  The timeout of a challenge that is in the cache returns,
    removes the challenge from the cache and touches nothing else but the
    messages sent.  When the guild of the challenge is among the guilds of the
    bot, one reply to the message is sent: the mentions of the roles of the
    guild that the cached mappings of the guild name for the type of the
    challenge, joined by spaces, followed by " This order is still up!"; with
    no such role the reply is sent all the same, with no mention.  When the
    guild is not among the guilds of the bot, nothing is sent. *)
Theorem on_challenge_timeout_notifies (bot : Bot) (w : World)
    (challenge : Challenge) (message : Message) (cached : Challenge) :
  challenges w !! message_id challenge = Some cached →
  let r := on_challenge_timeout bot challenge message w in
  snd r = Ok tt ∧
  challenges (fst r) = delete (message_id challenge) (challenges w) ∧
  database (fst r) = database w ∧
  match_roles (fst r) = match_roles w ∧
  dispatched (fst r) = dispatched w ∧
  match get_guild (guilds bot) (guild_id challenge) with
  | Some guild =>
    let roles := get_guild_roles (match_roles w) guild (Some (challenge_type challenge)) in
    sent (fst r)
    = sent w ++ [Reply (msg_ident message)
                       (join " " (map role_mention roles) +:+ " This order is still up!")] ∧
    (∀ role, role ∈ roles ↔
             ∃ mr, mr ∈ default [] (match_roles w !! guild_ident guild) ∧
                   match_type mr = challenge_type challenge ∧
                   get_role (guild_roles guild) (role_id mr) = Some role) ∧
    (roles = [] →
     sent (fst r) = sent w ++ [Reply (msg_ident message) " This order is still up!"])
  | None => sent (fst r) = sent w
  end.
Proof.
  intros Hcached.
  unfold on_challenge_timeout, bind, get_challenges. rewrite Hcached. cbn.
  destruct (get_guild (guilds bot) (guild_id challenge)) as [guild|]; cbn.
  - repeat split; try done.
    + by apply elem_of_get_guild_roles.
    + by apply elem_of_get_guild_roles.
    + by intros ->.
  - done.
Qed.

Lemma on_challenge_timeout_notifies_witness :
  challenges world_with_roles !! message_id open_challenge = Some open_challenge ∧
  sent (fst (on_challenge_timeout bot_in_guild open_challenge request_solo
                                  world_with_roles))
  = [Reply 10 "<@&5> This order is still up!"] ∧
  sent (fst (on_challenge_timeout bot_in_guild open_challenge request_solo
                (world_of (mkDb [open_challenge] []) {[10 := open_challenge]})))
  = [Reply 10 " This order is still up!"].
Proof.
  split; [reflexivity|]. split.
  - pose proof (on_challenge_timeout_notifies bot_in_guild world_with_roles
                  open_challenge request_solo open_challenge eq_refl) as H.
    exact (proj1 (proj2 (proj2 (proj2 (proj2 (proj2 H)))))).
  - pose proof (on_challenge_timeout_notifies bot_in_guild
                  (world_of (mkDb [open_challenge] []) {[10 := open_challenge]})
                  open_challenge request_solo open_challenge eq_refl) as H.
    exact (proj2 (proj2 (proj2 (proj2 (proj2 (proj2 (proj2 H)))))) eq_refl).
Defined.

(** * More on the persistence layer *)

Section MoreCrudFacts.

Implicit Types (db : Db) (c : Challenge) (rows : list Challenge).

Lemma fixed_columns_update_response now mid member rows :
  map fixed_columns (update_response now mid member rows) = map fixed_columns rows.
Proof.
  unfold update_response. rewrite map_map. apply map_ext.
  intros c. by destruct (has_message_id mid c).
Qed.

Lemma find_update_response_other now mid member rows k :
  k ≠ mid →
  find (has_message_id k) (update_response now mid member rows)
  = find (has_message_id k) rows.
Proof.
  intros Hk. unfold update_response, has_message_id.
  induction rows as [|c rows IH]; [done|]. cbn.
  destruct (message_id c =? mid) eqn:Emid; cbn.
  - apply Z.eqb_eq in Emid.
    destruct (message_id c =? k) eqn:Ek; [|done].
    apply Z.eqb_eq in Ek. congruence.
  - by destruct (message_id c =? k).
Qed.


(** The table after [respond_to_challenge], whatever its outcome. *)
Lemma respond_to_challenge_table db now mid member :
  tbl_challenges (fst (respond_to_challenge db now mid member)) = tbl_challenges db ∨
  tbl_challenges (fst (respond_to_challenge db now mid member))
  = update_response now mid member (tbl_challenges db).
Proof.
  unfold respond_to_challenge.
  destruct (responding_member_id <$> find _ _) as [[who|]|]; cbn; auto.
Qed.

Lemma next_rowid_above (ids : list Z) (x : Z) : x ∈ ids → x < next_rowid ids.
Proof.
  unfold next_rowid. induction ids as [|y ids IH]; [by intros ?%elem_of_nil|].
  intros [->|Hx]%elem_of_cons; cbn; [lia|]. specialize (IH Hx). lia.
Qed.

Lemma find_app_present {A} (p : A → bool) (l k : list A) (x : A) :
  find p l = Some x → find p (l ++ k) = Some x.
Proof.
  induction l as [|y l IH]; [done|]. cbn. destruct (p y); [done|]. exact IH.
Qed.

Lemma find_snoc_other {A} (p : A → bool) (l : list A) (x : A) :
  p x = false → find p (l ++ [x]) = find p l.
Proof.
  intros Hx. induction l as [|y l IH]; cbn; [by rewrite Hx|].
  destruct (p y); [done|]. exact IH.
Qed.

End MoreCrudFacts.



(** X2.  Whatever its outcome, [respond_to_challenge] adds, removes and
    reorders no row, leaves the id, creation time, guild, channel, message id
    and type of every row as they are, leaves the lookup of every other
    message id as it is, and does not touch the role mappings. *)
Theorem respond_to_challenge_frame (db : Db) (now : timestamp) (mid member : Z) :
  let db1 := fst (respond_to_challenge db now mid member) in
  map fixed_columns (tbl_challenges db1) = map fixed_columns (tbl_challenges db) ∧
  (∀ k, k ≠ mid → fetch_challenge db1 k = fetch_challenge db k) ∧
  fetch_roles db1 = fetch_roles db.
Proof.
  cbn zeta. split; [|split].
  - destruct (respond_to_challenge_table db now mid member) as [->| ->]; [done|].
    apply fixed_columns_update_response.
  - intros k Hk. unfold fetch_challenge.
    destruct (respond_to_challenge_table db now mid member) as [->| ->]; [done|].
    by apply find_update_response_other.
  - unfold respond_to_challenge.
    by destruct (responding_member_id <$> find _ _) as [[who|]|].
Qed.

(** X3.  [insert_challenge] always succeeds; the new challenge is open, has no
    elapsed time and an id that no stored row has; it comes last among the
    unanswered challenges; the lookup of every other message id and the role
    mappings are as before. *)
Theorem insert_challenge_frame (db : Db) (now : timestamp)
    (guild text_channel mid : Z) (ctype : string) (created_at : option timestamp) :
  ∃ db1 c,
    insert_challenge db now guild text_channel mid ctype created_at = (db1, Ok c) ∧
    is_open c = true ∧
    elapsed c = None ∧
    (challenge_id c ∉ map challenge_id (tbl_challenges db)) ∧
    fetch_all_challenges db1 true = fetch_all_challenges db true ++ [c] ∧
    (∀ k, k ≠ mid → fetch_challenge db1 k = fetch_challenge db k) ∧
    fetch_roles db1 = fetch_roles db.
Proof.
  eexists _, _. split; [reflexivity|].
  split; [done|]. split; [done|].
  split.
  { cbn. intros H%next_rowid_above. lia. }
  split.
  { cbn. rewrite filter_app. f_equal. }
  split; [|done].
  intros k Hk. unfold fetch_challenge. cbn.
  apply find_snoc_other. unfold has_message_id. cbn. by apply Z.eqb_neq.
Qed.

(** X4.  Creating a mapping for a triple that is not mapped and deleting the
    created row by its id gives back the database as it was. *)
Theorem create_then_delete_match_type_role (db : Db) (guild : Z) (mtype : string)
    (role : Z) :
  ¬ mapped db guild mtype role →
  ∃ db1 row,
    create_match_type_role db guild mtype role = (db1, Ok row) ∧
    delete_match_type_role db1 (mtr_id row) = (db, Ok tt).
Proof.
  intros Hfresh. eexists _, _.
  split; [by apply create_match_type_role_fresh|].
  unfold delete_match_type_role. cbn. f_equal.
  rewrite filter_app, filter_cons_False, filter_nil, app_nil_r
    by (cbn; intros H; by apply H).
  rewrite filter_keeps_all; [by destruct db|].
  intros r Hr Heq.
  assert (mtr_id r ∈ map mtr_id (tbl_match_type_roles db)) as Hin
    by (apply list_elem_of_fmap; eauto).
  apply next_rowid_above in Hin. lia.
Qed.

Lemma create_then_delete_match_type_role_witness :
  ∃ db1 row,
    create_match_type_role (mkDb [] [solo_mapping]) 30 "solo ultra" 5 = (db1, Ok row) ∧
    delete_match_type_role db1 (mtr_id row) = (mkDb [] [solo_mapping], Ok tt).
Proof.
  apply (create_then_delete_match_type_role (mkDb [] [solo_mapping]) 30 "solo ultra" 5).
  intros (r & Hr & _ & Ht & _). cbn in Hr.
  apply list_elem_of_singleton in Hr. by subst r.
Defined.




(** * bot/common.py: [td_format] *)

Section TdFormatFacts.

Lemma total_snoc counts vp : total (counts ++ [vp]) = total counts + vp.1 * vp.2.2.
Proof.
  unfold total. induction counts as [|x counts IH]; cbn; [lia|].
  cbn in IH. rewrite IH. lia.
Qed.

(** The texts of [td_format] are the texts of the counted periods. *)
Lemma td_step_count (ps : list (string * Z)) counts seconds :
  foldl td_step (map count_text counts, seconds) ps
  = (map count_text (foldl td_count (counts, seconds) ps).1,
     (foldl td_count (counts, seconds) ps).2).
Proof.
  revert counts seconds. induction ps as [|[name p] ps IH]; intros counts seconds.
  - done.
  - cbn [foldl td_step td_count snd]. case_bool_decide.
    + rewrite <- IH. f_equal. f_equal. by rewrite map_app.
    + apply IH.
Qed.

(** What the loop keeps: the counted periods and the seconds left add up to
    the seconds it started from, every count is one or more, and the seconds
    left do not go below zero. *)
Lemma td_count_keeps (ps : list (string * Z)) counts seconds :
  Forall (λ p, 0 < p.2) ps →
  Forall (λ vp, 1 ≤ vp.1) counts →
  let st := foldl td_count (counts, seconds) ps in
  total st.1 + st.2 = total counts + seconds ∧
  Forall (λ vp, 1 ≤ vp.1) st.1 ∧
  (0 ≤ seconds → 0 ≤ st.2).
Proof.
  intros Hps. revert counts seconds.
  induction Hps as [|[name p] ps Hp Hps IH]; intros counts seconds Hcounts; [done|].
  cbn in Hp. cbn [foldl td_count snd]. case_bool_decide as Hgt.
  - specialize (IH (counts ++ [(seconds `div` p, (name, p))]) (seconds `mod` p)).
    cbn zeta in IH. destruct IH as (Htotal & Hone & Hpos).
    { apply Forall_app. split; [done|]. apply Forall_singleton. cbn.
      apply Z.div_le_lower_bound; lia. }
    rewrite Htotal, total_snoc. cbn.
    split; [pose proof (Z.div_mod seconds p); lia|].
    split; [done|]. intros _. apply Hpos. apply Z.mod_pos_bound. lia.
  - by apply IH.
Qed.

Lemma td_count_periods (all ps : list (string * Z)) counts seconds :
  Forall (λ vp, vp.2 ∈ all) counts →
  (∀ p, p ∈ ps → p ∈ all) →
  Forall (λ vp, vp.2 ∈ all) (foldl td_count (counts, seconds) ps).1.
Proof.
  revert counts seconds. induction ps as [|p ps IH]; intros counts seconds Hc Hps.
  - done.
  - cbn [foldl td_count]. case_bool_decide.
    + apply IH; [|intros q Hq; apply Hps; by right].
      apply Forall_app. split; [done|]. apply Forall_singleton. cbn.
      apply Hps. by left.
    + apply IH; [done|]. intros q Hq. apply Hps. by right.
Qed.

Lemma td_count_second (st : list (Z * (string * Z)) * Z) :
  (td_count st ("second"%string, 1)).2 ≤ 1.
Proof.
  destruct st as [counts seconds].
  cbn. case_bool_decide; cbn; [|lia]. rewrite Z.mod_1_r. lia.
Qed.

End TdFormatFacts.

(** X7.  For a duration of [seconds] whole seconds, [td_format] is the list,
    joined by ", ", of the texts of the periods counted by [td_counts]; the
    counted periods and the seconds left over add up to [seconds]; every
    count is one or more; at most one second is left over, and none is owed
    when [seconds] is not negative: the text stands for [seconds] or for one
    second less. *)
Theorem td_format_counts (seconds : Z) :
  td_format seconds = join ", " (map count_text (td_counts seconds).1) ∧
  total (td_counts seconds).1 + (td_counts seconds).2 = seconds ∧
  Forall (λ vp, 1 ≤ vp.1 ∧ vp.2 ∈ periods) (td_counts seconds).1 ∧
  (td_counts seconds).2 ≤ 1 ∧
  (0 ≤ seconds → 0 ≤ (td_counts seconds).2).
Proof.
  split.
  { unfold td_format, td_counts.
    pose proof (td_step_count periods [] seconds) as H.
    change (map count_text []) with (@nil string) in H. by rewrite H. }
  assert (Forall (λ p : string * Z, 0 < p.2) periods) as Hperiods.
  { unfold periods. repeat (apply Forall_cons; split; [cbn; lia|]). done. }
  destruct (td_count_keeps periods [] seconds Hperiods (Forall_nil_2 _))
    as (Htotal & Hone & Hpos).
  split; [exact Htotal|].
  split.
  { apply Forall_and. split; [exact Hone|].
    apply td_count_periods; [apply Forall_nil_2|done]. }
  split; [|exact Hpos].
  unfold td_counts, periods. cbn [foldl]. apply td_count_second.
Qed.

(** One turn of the loop on a period that the seconds do not exceed. *)
Ltac td_skip := cbn [td_step]; rewrite bool_decide_eq_false_2 by lia.

(** X8.  A duration of one second or less, a negative one too, is formatted
    as the empty text. *)
Theorem td_format_short (seconds : Z) :
  seconds ≤ 1 → td_format seconds = ""%string.
Proof.
  intros Hle. unfold td_format, periods. cbn [foldl].
  by do 6 td_skip.
Qed.

Lemma td_format_short_witness : td_format 1 = ""%string.
Proof. apply (td_format_short 1). lia. Defined.



(** * Loading the cache: [cog_load] *)

Section LoadFacts.

Context {A V : Type} (key : A → Z) (val : A → V).

Lemma dict_of_snoc (l : list A) (x : A) :
  dict_of key val (l ++ [x]) = <[key x := val x]> (dict_of key val l).
Proof. unfold dict_of. by rewrite foldl_snoc. Qed.

(** A value of the dict comes from an element with that key. *)
Lemma dict_of_lookup_Some (l : list A) (k : Z) (y : V) :
  dict_of key val l !! k = Some y → ∃ x, x ∈ l ∧ key x = k ∧ val x = y.
Proof.
  induction l as [|x l IH] using rev_ind; [done|].
  rewrite dict_of_snoc. destruct (decide (key x = k)) as [Hk|Hk].
  - rewrite Hk, lookup_insert_eq. intros [= <-]. exists x.
    split; [apply elem_of_app; right; by left|done].
  - rewrite lookup_insert_ne by done. intros (x' & Hx' & H)%IH.
    exists x'. split; [apply elem_of_app; by left|done].
Qed.

(** The key of every element is a key of the dict. *)
Lemma dict_of_lookup_elem (l : list A) (x : A) :
  x ∈ l → is_Some (dict_of key val l !! key x).
Proof.
  induction l as [|y l IH] using rev_ind; [by intros ?%elem_of_nil|].
  rewrite dict_of_snoc. intros [Hx|Hx%list_elem_of_singleton]%elem_of_app.
  - destruct (decide (key y = key x)) as [Hk|Hk].
    + rewrite Hk, lookup_insert_eq. eauto.
    + rewrite lookup_insert_ne by done. by apply IH.
  - subst y. rewrite lookup_insert_eq. eauto.
Qed.

(** With no key twice, every element is found under its key. *)
Lemma dict_of_lookup_NoDup (l : list A) (x : A) :
  NoDup (map key l) → x ∈ l → dict_of key val l !! key x = Some (val x).
Proof.
  induction l as [|y l IH] using rev_ind; [by intros _ ?%elem_of_nil|].
  rewrite map_app, dict_of_snoc. cbn.
  intros (Hl & Hy & _)%NoDup_app [Hx|Hx%list_elem_of_singleton]%elem_of_app.
  - rewrite lookup_insert_ne; [by apply IH|].
    intros Hk. apply (Hy (key x)); [|rewrite Hk; by left].
    apply list_elem_of_fmap. eauto.
  - subst y. apply lookup_insert_eq.
Qed.

End LoadFacts.

Section LoadRoleFacts.

(** The loop of [cog_load] appends to the list of each guild the mappings of
    the guild, in their order. *)
Lemma foldl_cache_role (l : list MatchTypeRole) (m : gmap Z (list MatchTypeRole))
    (g : Z) :
  default [] (foldl cache_role m l !! g)
  = default [] (m !! g) ++ filter (λ r, mtr_guild_id r = g) l.
Proof.
  revert m. induction l as [|r l IH]; intros m; cbn [foldl].
  - by rewrite filter_nil, app_nil_r.
  - rewrite IH. unfold cache_role.
    destruct (decide (mtr_guild_id r = g)) as [Hg|Hg].
    + rewrite Hg, lookup_insert_eq, filter_cons_True by done. cbn.
      by rewrite <- app_assoc.
    + by rewrite lookup_insert_ne, filter_cons_False by done.
Qed.

Lemma find_unique {B} (key : B → Z) (l : list B) (x : B) :
  NoDup (map key l) → x ∈ l → find (λ y, key y =? key x) l = Some x.
Proof.
  induction l as [|y l IH]; [by intros _ ?%elem_of_nil|].
  cbn. intros [Hy Hl]%NoDup_cons [->|Hx]%elem_of_cons.
  - by rewrite Z.eqb_refl.
  - destruct (key y =? key x) eqn:E; [|by apply IH].
    apply Z.eqb_eq in E. exfalso. apply Hy. rewrite E.
    apply list_elem_of_fmap. eauto.
Qed.

End LoadRoleFacts.

(** X10.  [cog_load] on a cog that has no role mapping cached yet returns,
    writes nothing to the database, sends and dispatches nothing.  Afterwards
    every cached challenge is a stored unanswered challenge cached under its
    own message id, the message id of every stored unanswered challenge is a
    key of the cache, and the list cached for a guild is the list of the
    stored mappings of the guild, in stored order. *)
Theorem cog_load_caches (w : World) :
  match_roles w = ∅ →
  let r := cog_load w in
  snd r = Ok tt ∧
  database (fst r) = database w ∧
  sent (fst r) = sent w ∧
  dispatched (fst r) = dispatched w ∧
  (∀ k c, challenges (fst r) !! k = Some c →
          c ∈ fetch_all_challenges (database w) true ∧
          message_id c = k ∧ is_open c = true) ∧
  (∀ c, c ∈ fetch_all_challenges (database w) true →
        is_Some (challenges (fst r) !! message_id c)) ∧
  (∀ g, default [] (match_roles (fst r) !! g) = roles_of_guild (database w) g).
Proof.
  intros Hempty. cbn zeta. unfold cog_load.
  cbn -[dict_of fetch_all_challenges].
  repeat split.
  - apply dict_of_lookup_Some in H as (x & Hx & Hk & ->). done.
  - by apply dict_of_lookup_Some in H as (x & Hx & Hk & ->).
  - apply dict_of_lookup_Some in H as (x & Hx & Hk & ->).
    apply list_elem_of_filter in Hx as [Hx _]. unfold is_open. by rewrite Hx.
  - intros c Hc. by apply (dict_of_lookup_elem message_id (λ c, c)).
  - intros g. rewrite foldl_cache_role, Hempty, lookup_empty. done.
Qed.

Lemma cog_load_caches_witness :
  let w := world_of (mkDb [open_challenge] [solo_mapping]) ∅ in
  let r := cog_load w in
  snd r = Ok tt ∧
  database (fst r) = database w ∧
  sent (fst r) = sent w ∧
  dispatched (fst r) = dispatched w ∧
  (∀ k c, challenges (fst r) !! k = Some c →
          c ∈ fetch_all_challenges (database w) true ∧
          message_id c = k ∧ is_open c = true) ∧
  (∀ c, c ∈ fetch_all_challenges (database w) true →
        is_Some (challenges (fst r) !! message_id c)) ∧
  (∀ g, default [] (match_roles (fst r) !! g) = roles_of_guild (database w) g).
Proof.
  apply (cog_load_caches (world_of (mkDb [open_challenge] [solo_mapping]) ∅)).
  reflexivity.
Defined.

(** X11.  When no two stored challenges have the same message id, [cog_load]
    leaves a coherent cache in which every stored unanswered challenge is
    cached under its message id, and no answered one is cached. *)
Theorem cog_load_coherent (w : World) :
  NoDup (map message_id (tbl_challenges (database w))) →
  cache_coherent (fst (cog_load w)) ∧
  (∀ c, c ∈ fetch_all_challenges (database w) false →
        challenges (fst (cog_load w)) !! message_id c
        = if is_open c then Some c else None).
Proof.
  intros Hnodup. unfold cog_load. cbn -[dict_of fetch_all_challenges].
  assert (∀ k c, dict_of message_id (λ c, c)
                         (fetch_all_challenges (database w) true) !! k = Some c →
                 c ∈ tbl_challenges (database w) ∧ message_id c = k ∧
                 responded_at c = None) as Hcached.
  { intros k c (x & Hx & Hk & ->)%dict_of_lookup_Some.
    by apply list_elem_of_filter in Hx as [? ?]. }
  split.
  - intros k c (Hin & <- & _)%Hcached. unfold fetch_challenge, has_message_id.
    by apply find_unique.
  - intros c Hc. cbn in Hc. unfold is_open.
    destruct (responded_at c) as [t|] eqn:Hresp.
    + destruct (dict_of _ _ _ !! message_id c) as [c'|] eqn:Hc'; [|done].
      apply Hcached in Hc' as (Hin' & Hmid & Hopen).
      assert (c' = c) as ->; [|congruence].
      apply (NoDup_fmap_1 message_id) in Hnodup as Hrows.
      pose proof (find_unique message_id _ c Hnodup Hc) as H1.
      pose proof (find_unique message_id _ c' Hnodup Hin') as H2.
      rewrite Hmid in H2. congruence.
    + apply (dict_of_lookup_NoDup message_id (λ c, c)).
      * cbn. apply (NoDup_fmap_2_strong message_id).
        -- intros x y [_ Hx]%list_elem_of_filter [_ Hy]%list_elem_of_filter Hxy.
           pose proof (find_unique message_id _ x Hnodup Hx) as H1.
           pose proof (find_unique message_id _ y Hnodup Hy) as H2.
           rewrite Hxy in H1. congruence.
        -- apply NoDup_filter. by apply (NoDup_fmap_1 message_id).
      * by apply list_elem_of_filter.
Qed.

Lemma cog_load_coherent_witness :
  let w := world_of (mkDb [open_challenge] [solo_mapping]) ∅ in
  cache_coherent (fst (cog_load w)) ∧
  (∀ c, c ∈ fetch_all_challenges (database w) false →
        challenges (fst (cog_load w)) !! message_id c
        = if is_open c then Some c else None).
Proof.
  apply (cog_load_coherent (world_of (mkDb [open_challenge] [solo_mapping]) ∅)).
  cbn. apply NoDup_singleton.
Defined.

(** * The cache of challenges stays coherent *)

Section CoherenceFacts.

Variable bot : Bot.

(** Coherence looks at the database and the cache only. *)
Lemma cache_coherent_ext (w w' : World) :
  database w' = database w →
  challenges w' = challenges w →
  cache_coherent w → cache_coherent w'.
Proof. unfold cache_coherent. intros -> ->. done. Qed.

Lemma fetch_challenge_message_id (d : Db) (k : Z) (c : Challenge) :
  fetch_challenge d k = Some c → message_id c = k.
Proof.
  unfold fetch_challenge. intros [_ H]%find_some.
  by apply Z.eqb_eq in H.
Qed.

(** The three outcomes of [answer_challenge]. *)
Lemma answer_challenge_cases (challenge : Challenge) (member : Member) (w : World) :
  let mid := message_id challenge in
  match fetch_challenge (database w) mid with
  | None => answer_challenge challenge member w = (w, Raise TypeError)
  | Some stored =>
    match responding_member_id stored with
    | Some _ => answer_challenge challenge member w = (w, Raise ChallengeResponded)
    | None =>
      let updated := set_response (clock w) (member_ident member) stored in
      answer_challenge challenge member w
      = (mkWorld (with_challenges (database w)
                    (update_response (clock w) mid (member_ident member)
                                     (tbl_challenges (database w))))
                 (clock w) (<[mid := updated]> (challenges w)) (match_roles w)
                 (sent w) (dispatched w), Ok tt)
    end
  end.
Proof.
  cbn zeta. unfold answer_challenge, bind, on_db.
  destruct (fetch_challenge _ _) as [stored|] eqn:Hfetch.
  - destruct (responding_member_id stored) as [who|] eqn:Hwho.
    + rewrite (respond_to_challenge_answered _ _ _ _ _ _ Hfetch Hwho).
      by rewrite world_eta.
    + rewrite (respond_to_challenge_open _ _ _ _ _ Hfetch Hwho). cbn.
      by rewrite (fetch_challenge_message_id _ _ _ Hfetch).
  - rewrite (respond_to_challenge_absent _ _ _ _ Hfetch). by rewrite world_eta.
Qed.

Lemma answer_challenge_coherent (challenge : Challenge) (member : Member) (w : World) :
  cache_coherent w → cache_coherent (fst (answer_challenge challenge member w)).
Proof.
  intros Hw. pose proof (answer_challenge_cases challenge member w) as H.
  cbn zeta in H.
  destruct (fetch_challenge _ _) as [stored|] eqn:Hfetch; [|by rewrite H].
  destruct (responding_member_id stored) as [who|] eqn:Hwho; rewrite H; [done|].
  intros k c. cbn. unfold fetch_challenge. cbn.
  destruct (decide (message_id challenge = k)) as [<-|Hk].
  - rewrite lookup_insert_eq. intros [= <-].
    unfold fetch_challenge in Hfetch. by rewrite find_update_response, Hfetch.
  - rewrite lookup_insert_ne by done. intros Hc%Hw.
    by rewrite find_update_response_other.
Qed.

Lemma on_challenge_timeout_world (challenge : Challenge) (message : Message)
    (w : World) :
  let w' := fst (on_challenge_timeout bot challenge message w) in
  database w' = database w ∧
  (challenges w' = challenges w ∨
   challenges w' = delete (message_id challenge) (challenges w)).
Proof.
  cbn zeta. unfold on_challenge_timeout, bind, get_challenges.
  destruct (challenges w !! message_id challenge); cbn; [|auto].
  destruct (get_guild _ _); cbn; auto.
Qed.

Lemma on_challenge_timeout_hit (challenge cached : Challenge) (message : Message)
    (w : World) :
  challenges w !! message_id challenge = Some cached →
  snd (on_challenge_timeout bot challenge message w) = Ok tt ∧
  challenges (fst (on_challenge_timeout bot challenge message w))
  = delete (message_id challenge) (challenges w) ∧
  database (fst (on_challenge_timeout bot challenge message w)) = database w.
Proof.
  intros Hcached. unfold on_challenge_timeout, bind, get_challenges.
  rewrite Hcached. cbn. by destruct (get_guild _ _).
Qed.

(** [on_message] and the timeout check write neither to the database nor to
    the caches, and send nothing. *)
Lemma on_message_world (message : Message) (w : World) :
  let w' := fst (on_message bot message w) in
  database w' = database w ∧ challenges w' = challenges w ∧
  match_roles w' = match_roles w ∧ sent w' = sent w.
Proof.
  cbn zeta. unfold on_message, bind, subscript, get_challenges.
  case_bool_decide; [done|].
  destruct (is_match_request message).
  - by destruct (re_search_match_type _).
  - cbn. destruct (reference message ≫= _); [|done].
    by destruct (contains _ _).
Qed.

Lemma on_new_challenge_fire_world (message : Message) (w : World) :
  let w' := fst (on_new_challenge_fire message w) in
  database w' = database w ∧ challenges w' = challenges w ∧
  match_roles w' = match_roles w ∧ sent w' = sent w.
Proof.
  cbn zeta. unfold on_new_challenge_fire, bind, get_challenges.
  destruct (challenges w !! msg_ident message) as [c|]; cbn; [|done].
  by destruct (is_open c).
Qed.

End CoherenceFacts.

(** X12.  The handlers of an acceptance, of a timeout, of a message and the
    timeout check keep the cache coherent, whatever their arguments and
    whether they return or raise: a cached challenge is always the stored
    challenge of its key. *)
Theorem handlers_keep_cache_coherent (bot : Bot) (w : World)
    (challenge : Challenge) (message : Message) :
  cache_coherent w →
  cache_coherent (fst (on_challenge_accepted challenge message w)) ∧
  cache_coherent (fst (on_challenge_timeout bot challenge message w)) ∧
  cache_coherent (fst (on_new_challenge_fire message w)) ∧
  cache_coherent (fst (on_message bot message w)).
Proof.
  intros Hw. split; [|split; [|split]].
  - pose proof (answer_challenge_coherent challenge (author message) w Hw) as H.
    unfold on_challenge_accepted, bind.
    destruct (answer_challenge _ _ _) as [w1 [[]|e]]; exact H.
  - destruct (on_challenge_timeout_world bot challenge message w) as [Hdb Hcache].
    intros k c. rewrite Hdb. destruct Hcache as [-> | ->]; [by apply Hw|].
    intros [_ H]%lookup_delete_Some. by apply Hw.
  - destruct (on_new_challenge_fire_world message w) as (Hdb & Hcache & _).
    by apply (cache_coherent_ext w).
  - destruct (on_message_world bot message w) as (Hdb & Hcache & _).
    by apply (cache_coherent_ext w).
Qed.

Lemma handlers_keep_cache_coherent_witness :
  let w := world_of (mkDb [open_challenge] []) {[10 := open_challenge]} in
  cache_coherent (fst (on_challenge_accepted open_challenge accept_reply w)) ∧
  cache_coherent (fst (on_challenge_timeout lone_bot open_challenge accept_reply w)) ∧
  cache_coherent (fst (on_new_challenge_fire accept_reply w)) ∧
  cache_coherent (fst (on_message lone_bot accept_reply w)).
Proof.
  apply (handlers_keep_cache_coherent lone_bot
           (world_of (mkDb [open_challenge] []) {[10 := open_challenge]})
           open_challenge accept_reply).
  intros k c H. cbn in H. apply lookup_singleton_Some in H as [<- <-].
  reflexivity.
Defined.

(** X13.  Registering a challenge for a message whose id no stored challenge
    has: [create_new_challenge] returns, the new challenge is stored and
    cached under the id of the message, open, with the lower-cased type and
    the guild and channel of the message, and a coherent cache stays
    coherent. *)
Theorem create_new_challenge_registers (w : World) (message : Message)
    (mtype : string) :
  fetch_challenge (database w) (msg_ident message) = None →
  ∃ w' c,
    create_new_challenge message mtype w = (w', Ok tt) ∧
    challenges w' !! msg_ident message = Some c ∧
    fetch_challenge (database w') (msg_ident message) = Some c ∧
    is_open c = true ∧
    challenge_type c = lower mtype ∧
    (guild_id c, text_channel_id c, message_id c, created c)
    = (msg_guild message, channel message, msg_ident message, clock w) ∧
    sent w' = sent w ∧
    (cache_coherent w → cache_coherent w').
Proof.
  intros Hfresh. eexists _, _.
  split; [reflexivity|]. cbn.
  split; [apply lookup_insert_eq|].
  assert (fetch_challenge
            (with_challenges (database w)
               (tbl_challenges (database w) ++
                [mkChallenge (next_rowid (map challenge_id (tbl_challenges (database w))))
                   (clock w) (msg_guild message) (channel message) (msg_ident message)
                   (lower mtype) None None])) (msg_ident message)
          = Some (mkChallenge
                    (next_rowid (map challenge_id (tbl_challenges (database w))))
                    (clock w) (msg_guild message) (channel message)
                    (msg_ident message) (lower mtype) None None)) as Hstored.
  { unfold fetch_challenge in *. cbn. rewrite find_app_absent by done.
    unfold has_message_id. cbn. by rewrite Z.eqb_refl. }
  split; [exact Hstored|]. split; [done|]. split; [done|]. split; [done|].
  split; [done|].
  intros Hw k c. cbn. destruct (decide (msg_ident message = k)) as [<-|Hk].
  - rewrite lookup_insert_eq. by intros [= <-].
  - rewrite lookup_insert_ne by done. intros Hc%Hw.
    unfold fetch_challenge in *. cbn. by apply find_app_present.
Qed.

Lemma create_new_challenge_registers_witness :
  ∃ w' c,
    create_new_challenge request_solo "Solo" (world_of empty_db ∅) = (w', Ok tt) ∧
    challenges w' !! msg_ident request_solo = Some c ∧
    fetch_challenge (database w') (msg_ident request_solo) = Some c ∧
    is_open c = true ∧
    challenge_type c = lower "Solo" ∧
    (guild_id c, text_channel_id c, message_id c, created c)
    = (msg_guild request_solo, channel request_solo, msg_ident request_solo,
       clock (world_of empty_db ∅)) ∧
    sent w' = sent (world_of empty_db ∅) ∧
    (cache_coherent (world_of empty_db ∅) → cache_coherent w').
Proof.
  apply (create_new_challenge_registers (world_of empty_db ∅) request_solo "Solo").
  reflexivity.
Defined.

(** * The life of a challenge *)

Section LifecycleFacts.

Variable bot : Bot.

Lemma on_new_challenge_arm_result (message : Message) (mtype : string) (w : World) :
  on_new_challenge_arm message mtype w
  = (mkWorld (with_challenges (database w)
                (tbl_challenges (database w) ++ [registered w message mtype]))
             (clock w)
             (<[msg_ident message := registered w message mtype]> (challenges w))
             (match_roles w)
             (sent w ++ [ChannelSend (channel message)
               "This is a placeholder to show I received the message. Timeout is currently 1 minute"])
             (dispatched w), Ok tt).
Proof. reflexivity. Qed.

Lemma fetch_registered (message : Message) (mtype : string) (w : World) :
  fetch_challenge (database w) (msg_ident message) = None →
  fetch_challenge
    (with_challenges (database w)
       (tbl_challenges (database w) ++ [registered w message mtype]))
    (msg_ident message)
  = Some (registered w message mtype).
Proof.
  intros Hfresh. unfold fetch_challenge in *. cbn.
  rewrite find_app_absent by done.
  unfold has_message_id. cbn. by rewrite Z.eqb_refl.
Qed.

(** A successful acceptance. *)
Lemma on_challenge_accepted_result (challenge stored : Challenge) (message : Message)
    (w : World) :
  fetch_challenge (database w) (message_id challenge) = Some stored →
  responding_member_id stored = None →
  on_challenge_accepted challenge message w
  = (mkWorld (with_challenges (database w)
                (update_response (clock w) (message_id challenge)
                   (member_ident (author message)) (tbl_challenges (database w))))
             (clock w)
             (<[message_id challenge
                := set_response (clock w) (member_ident (author message)) stored]>
                (challenges w))
             (match_roles w)
             (sent w ++ [ChannelSend (channel message)
                           ("I see you! " +:+ member_mention (author message))])
             (dispatched w), Ok tt).
Proof.
  intros Hfetch Hopen.
  pose proof (answer_challenge_cases challenge (author message) w) as H.
  cbn zeta in H. rewrite Hfetch, Hopen in H.
  unfold on_challenge_accepted, bind. by rewrite H.
Qed.

(** [re.search] with the pattern of the match type finds "Solo" or
    "Solo Ultra" only. *)
Lemma group_here_values (s g : string) :
  group_here s = Some g → g = "Solo"%string ∨ g = "Solo Ultra"%string.
Proof.
  unfold group_here. destruct (String.prefix " Solo Ultra" s).
  - intros [= <-]. by right.
  - destruct (String.prefix " Solo" s); [|done]. intros [= <-]. by left.
Qed.

Lemma dot_star_group_values (s g : string) :
  dot_star_group s = Some g → g = "Solo"%string ∨ g = "Solo Ultra"%string.
Proof.
  induction s as [|c s IH]; cbn [dot_star_group].
  - apply group_here_values.
  - destruct (is_newline c); [apply group_here_values|].
    destruct (dot_star_group s) as [g'|].
    + intros [= <-]. by apply IH.
    + apply group_here_values.
Qed.

Lemma contains_here (needle s : string) :
  String.prefix needle s = true → contains needle s = true.
Proof. intros H. destruct s; cbn in *; by rewrite H. Qed.

Lemma contains_later (needle : string) (c : ascii) (s : string) :
  contains needle s = true → contains needle (String c s) = true.
Proof. intros H. cbn [contains]. rewrite H. apply orb_true_r. Qed.

End LifecycleFacts.

Lemma re_search_match_type_found (s g : string) :
  re_search_match_type s = Some g →
  (g = "Solo"%string ∨ g = "Solo Ultra"%string) ∧ contains "Type: " s = true.
Proof.
  induction s as [|c s IH].
  - cbn. done.
  - cbn [re_search_match_type].
    destruct (match_here (String c s)) as [g'|] eqn:Hhere.
    + intros [= ->]. unfold match_here in Hhere.
      destruct (String.prefix "Type: " (String c s)) eqn:Hp; [|done].
      split; [by eapply dot_star_group_values|by apply contains_here].
    + intros H. destruct (IH H) as [? ?].
      split; [done|by apply contains_later].
Qed.

(** X14.  What [re.search] finds with the pattern of the match type is "Solo"
    or "Solo Ultra", its lower-casing is one of the two match types of the
    commands, and the text searched contains "Type: ". *)
Theorem re_search_match_type_values (s g : string) :
  re_search_match_type s = Some g →
  (g = "Solo"%string ∨ g = "Solo Ultra"%string) ∧
  (lower g = "solo"%string ∨ lower g = "solo ultra"%string) ∧
  contains "Type: " s = true.
Proof.
  intros [Hg Hc]%re_search_match_type_found.
  split; [done|]. split; [|done].
  destruct Hg as [-> | ->]; [by left|by right].
Qed.

Lemma re_search_match_type_values_witness :
  ("Solo Ultra"%string = "Solo"%string ∨ "Solo Ultra"%string = "Solo Ultra"%string) ∧
  (lower "Solo Ultra" = "solo"%string ∨ lower "Solo Ultra" = "solo ultra"%string) ∧
  contains "Type: " "New match request received! Type: 2v2 Solo Ultra" = true.
Proof.
  apply (re_search_match_type_values
           "New match request received! Type: 2v2 Solo Ultra" "Solo Ultra").
  reflexivity.
Defined.

(** X15.  [on_message] writes neither to the database nor to the caches and
    sends nothing; it ends by returning or in [TypeError]; it dispatches
    nothing or one event for the message: a new challenge of type "Solo" or
    "Solo Ultra", or the acceptance of the challenge cached under the id the
    message refers to.  On a message of the bot itself it does nothing. *)
Theorem on_message_effects (bot : Bot) (message : Message) (w : World) :
  let r := on_message bot message w in
  database (fst r) = database w ∧
  challenges (fst r) = challenges w ∧
  match_roles (fst r) = match_roles w ∧
  sent (fst r) = sent w ∧
  (snd r = Ok tt ∨ snd r = Raise TypeError) ∧
  (dispatched (fst r) = dispatched w ∨
   (∃ g, dispatched (fst r) = dispatched w ++ [new_challenge message g] ∧
         (g = "Solo"%string ∨ g = "Solo Ultra"%string)) ∨
   (∃ ref c, dispatched (fst r) = dispatched w ++ [challenge_accepted c message] ∧
             reference message = Some ref ∧ challenges w !! ref = Some c)) ∧
  (member_ident (author message) = user bot → r = (w, Ok tt)).
Proof.
  cbn zeta.
  destruct (on_message_world bot message w) as (Hdb & Hcache & Hroles & Hsent).
  do 4 (split; [done|]).
  unfold on_message, bind, subscript, get_challenges.
  case_bool_decide as Hself; [by auto|].
  split; [|split; [|done]].
  - destruct (is_match_request message).
    + destruct (re_search_match_type _); cbn; auto.
    + cbn. destruct (reference message ≫= _); [|auto].
      destruct (contains _ _); auto.
  - destruct (is_match_request message).
    + destruct (re_search_match_type _) as [g|] eqn:Hg; cbn; [|auto].
      right. left. exists g. split; [done|].
      by apply re_search_match_type_found in Hg as [? _].
    + cbn. destruct (reference message) as [ref|] eqn:Href; cbn; [|auto].
      destruct (challenges w !! ref) as [c|] eqn:Hc; [|auto].
      destruct (contains _ _); cbn; [|auto].
      right. right. by exists ref, c.
Qed.



(** X17.  A whole run of [on_new_challenge] for a message whose id no stored
    challenge has, when what happens during the wait leaves the cache entry
    of the message alone: the run returns, and the last thing it does is to
    dispatch, once, the timeout of the challenge it registered, which is
    open. *)
Theorem on_new_challenge_times_out (others : World → World) (message : Message)
    (mtype : string) (w : World) :
  (∀ w1, challenges (others w1) !! msg_ident message
         = challenges w1 !! msg_ident message) →
  ∃ w1 w',
    on_new_challenge_arm message mtype w = (w1, Ok tt) ∧
    on_new_challenge others message mtype w = (w', Ok tt) ∧
    is_open (registered w message mtype) = true ∧
    dispatched w' = dispatched (others w1)
                    ++ [challenge_timeout (registered w message mtype) message] ∧
    sent w' = sent (others w1) ∧
    challenges w' = challenges (others w1) ∧
    database w' = database (others w1).
Proof.
  intros Hkeeps. eexists _, _.
  split; [apply on_new_challenge_arm_result|].
  unfold on_new_challenge, bind at 1. rewrite on_new_challenge_arm_result.
  unfold bind at 1, suspended.
  rewrite (on_new_challenge_fire_open _ _ (registered w message mtype)); first last.
  - done.
  - rewrite Hkeeps. cbn. apply lookup_insert_eq.
  - done.
Qed.

Lemma on_new_challenge_times_out_witness :
  ∃ w1 w',
    on_new_challenge_arm request_solo "Solo" (world_of empty_db ∅) = (w1, Ok tt) ∧
    on_new_challenge (λ w, w) request_solo "Solo" (world_of empty_db ∅) = (w', Ok tt) ∧
    is_open (registered (world_of empty_db ∅) request_solo "Solo") = true ∧
    dispatched w' = dispatched w1
                    ++ [challenge_timeout
                          (registered (world_of empty_db ∅) request_solo "Solo")
                          request_solo] ∧
    sent w' = sent w1 ∧
    challenges w' = challenges w1 ∧
    database w' = database w1.
Proof.
  apply (on_new_challenge_times_out (λ w, w) request_solo "Solo"
           (world_of empty_db ∅)).
  reflexivity.
Defined.

(** X18.  A whole run of [on_new_challenge] for a message whose id no stored
    challenge has, during whose wait the challenge is accepted: the run
    returns and dispatches nothing, no timeout; the placeholder and the
    acknowledgement of the acceptance are the messages sent; the challenge is
    stored and cached as answered by the author of the reply. *)
Theorem on_new_challenge_accepted_in_time (message reply : Message)
    (mtype : string) (w : World) :
  fetch_challenge (database w) (msg_ident message) = None →
  ∃ w' answered,
    on_new_challenge (accepted_during_wait (msg_ident message) reply)
                     message mtype w = (w', Ok tt) ∧
    dispatched w' = dispatched w ∧
    sent w' = sent w ++
      [ChannelSend (channel message)
         "This is a placeholder to show I received the message. Timeout is currently 1 minute";
       ChannelSend (channel reply) ("I see you! " +:+ member_mention (author reply))] ∧
    answered = set_response (clock w) (member_ident (author reply))
                            (registered w message mtype) ∧
    challenges w' !! msg_ident message = Some answered ∧
    fetch_challenge (database w') (msg_ident message) = Some answered.
Proof.
  intros Hfresh. eexists _, _.
  unfold on_new_challenge, bind at 1. rewrite on_new_challenge_arm_result.
  unfold bind at 1, suspended, accepted_during_wait.
  cbn [challenges]. rewrite lookup_insert_eq.
  rewrite (on_challenge_accepted_result _ (registered w message mtype));
    [|by apply fetch_registered|done].
  cbn [fst].
  split.
  { eapply on_new_challenge_fire_answered;
      [cbn; apply lookup_insert_eq|done]. }
  split; [done|].
  split; [cbn; by rewrite <- app_assoc|].
  split; [done|].
  split; [cbn; apply lookup_insert_eq|].
  unfold fetch_challenge. cbn [database clock with_challenges tbl_challenges].
  change (message_id (registered w message mtype)) with (msg_ident message).
  rewrite find_update_response.
  pose proof (fetch_registered message mtype w Hfresh) as Hreg.
  unfold fetch_challenge in Hreg. cbn [with_challenges tbl_challenges] in Hreg.
  by rewrite Hreg.
Qed.

Lemma on_new_challenge_accepted_in_time_witness :
  ∃ w' answered,
    let w := world_of empty_db ∅ in
    on_new_challenge (accepted_during_wait (msg_ident request_solo) accept_reply)
                     request_solo "Solo" w = (w', Ok tt) ∧
    dispatched w' = dispatched w ∧
    sent w' = sent w ++
      [ChannelSend (channel request_solo)
         "This is a placeholder to show I received the message. Timeout is currently 1 minute";
       ChannelSend (channel accept_reply)
                   ("I see you! " +:+ member_mention (author accept_reply))] ∧
    answered = set_response (clock w) (member_ident (author accept_reply))
                            (registered w request_solo "Solo") ∧
    challenges w' !! msg_ident request_solo = Some answered ∧
    fetch_challenge (database w') (msg_ident request_solo) = Some answered.
Proof.
  apply (on_new_challenge_accepted_in_time request_solo accept_reply "Solo"
           (world_of empty_db ∅)).
  reflexivity.
Defined.

(** X19.  After the timeout of a cached challenge the database is as it was
    and the challenge is out of the cache: a second timeout of it raises
    [KeyError] and changes nothing, and a reply to its message that is not a
    match request makes [on_message] do nothing, whatever the reply says. *)
Theorem on_challenge_timeout_drops (bot : Bot) (challenge cached : Challenge)
    (message : Message) (w : World) :
  challenges w !! message_id challenge = Some cached →
  ∃ w',
    on_challenge_timeout bot challenge message w = (w', Ok tt) ∧
    database w' = database w ∧
    challenges w' !! message_id challenge = None ∧
    on_challenge_timeout bot challenge message w' = (w', Raise KeyError) ∧
    (∀ reply, reference reply = Some (message_id challenge) →
              is_match_request reply = false →
              on_message bot reply w' = (w', Ok tt)).
Proof.
  intros Hcached.
  destruct (on_challenge_timeout_hit bot challenge cached message w Hcached)
    as (Hok & Hcache & Hdb).
  destruct (on_challenge_timeout bot challenge message w) as [w' r] eqn:Hrun.
  cbn in Hok, Hcache, Hdb. subst r. exists w'.
  assert (challenges w' !! message_id challenge = None) as Hgone
    by (rewrite Hcache; apply lookup_delete_eq).
  split; [done|]. split; [done|]. split; [done|]. split.
  - unfold on_challenge_timeout, bind, get_challenges. by rewrite Hgone.
  - intros reply Href Hreq. unfold on_message.
    case_bool_decide; [done|]. rewrite Hreq.
    unfold bind, get_challenges. rewrite Href.
    change (Some (message_id challenge) ≫= λ ref_id, challenges w' !! ref_id)
      with (challenges w' !! message_id challenge).
    by rewrite Hgone.
Qed.

Lemma on_challenge_timeout_drops_witness :
  ∃ w',
    let w := world_of (mkDb [open_challenge] []) {[10 := open_challenge]} in
    on_challenge_timeout lone_bot open_challenge request_solo w = (w', Ok tt) ∧
    database w' = database w ∧
    challenges w' !! message_id open_challenge = None ∧
    on_challenge_timeout lone_bot open_challenge request_solo w'
    = (w', Raise KeyError) ∧
    (∀ reply, reference reply = Some (message_id open_challenge) →
              is_match_request reply = false →
              on_message lone_bot reply w' = (w', Ok tt)).
Proof.
  apply (on_challenge_timeout_drops lone_bot open_challenge open_challenge
           request_solo
           (world_of (mkDb [open_challenge] []) {[10 := open_challenge]})).
  reflexivity.
Defined.

Lemma length_omap_le {A B} (f : A → option B) (l : list A) :
  (length (omap f l) ≤ length l)%nat.
Proof.
  induction l as [|x l IH]; [done|]. cbn. destruct (f x); cbn; lia.
Qed.

(** X20.  Every role that [get_guild_roles] returns is a role of the guild,
    named by a mapping cached for the guild, and of the match type asked for
    when one is asked for; there are no more roles than cached mappings, and
    none for a guild with no cached mapping. *)
Theorem get_guild_roles_resolves (cache : gmap Z (list MatchTypeRole))
    (guild : Guild) (mtype : option string) :
  Forall (λ r, r ∈ guild_roles guild ∧
               ∃ mr, mr ∈ default [] (cache !! guild_ident guild) ∧
                     role_id mr = role_ident r ∧
                     ∀ t, mtype = Some t → match_type mr = t)
         (get_guild_roles cache guild mtype) ∧
  (length (get_guild_roles cache guild mtype)
   ≤ length (default [] (cache !! guild_ident guild)))%nat ∧
  (cache !! guild_ident guild = None → get_guild_roles cache guild mtype = []).
Proof.
  split; [|split].
  - apply Forall_forall. intros r. unfold get_guild_roles.
    rewrite list_elem_of_omap. intros (o & Ho & ->).
    assert (∃ mr, mr ∈ default [] (cache !! guild_ident guild) ∧
                  get_role (guild_roles guild) (role_id mr) = Some r ∧
                  ∀ t, mtype = Some t → match_type mr = t) as (mr & Hin & Hr & Ht).
    { destruct mtype as [t|];
        apply list_elem_of_fmap in Ho as (mr & Hmr & Hin).
      - apply list_elem_of_filter in Hin as [Ht Hin].
        exists mr. split; [done|]. split; [done|]. by intros ? [= <-].
      - exists mr. split; [done|]. split; [done|]. done. }
    unfold get_role in Hr. apply find_some in Hr as [Hr Hid].
    apply Z.eqb_eq in Hid. split; [by apply list_elem_of_In|].
    exists mr. split; [done|]. split; [done|]. exact Ht.
  - unfold get_guild_roles.
    etransitivity; [apply length_omap_le|].
    destruct mtype as [t|]; rewrite length_map; [apply length_filter|done].
  - apply get_guild_roles_unmapped.
Qed.

(** * The registry of roles *)

Section RegistryFacts.

Local Open Scope handler_scope.

Implicit Types (w : World) (r mr : MatchTypeRole) (rows : list MatchTypeRole).

Lemma filter_ext_elem {A} (P Q : A → Prop) `{!∀ x, Decision (P x)}
    `{!∀ x, Decision (Q x)} (l : list A) :
  (∀ x, x ∈ l → (P x ↔ Q x)) → filter P l = filter Q l.
Proof.
  induction l as [|x l IH]; [done|]. intros Hall.
  rewrite !filter_cons, IH by (intros y Hy; apply Hall; by right).
  assert (P x ↔ Q x) as Hx by (apply Hall; by left).
  destruct (decide (P x)) as [HP|HP], (decide (Q x)) as [HQ|HQ]; tauto || done.
Qed.

Lemma filter_comm {A} (P Q : A → Prop) `{!∀ x, Decision (P x)}
    `{!∀ x, Decision (Q x)} (l : list A) :
  filter P (filter Q l) = filter Q (filter P l).
Proof.
  rewrite !list_filter_filter. apply list_filter_iff. tauto.
Qed.

Lemma NoDup_fmap_filter {A B} (f : A → B) (P : A → Prop) `{!∀ x, Decision (P x)}
    (l : list A) :
  NoDup (map f l) → NoDup (map f (filter P l)).
Proof.
  induction l as [|x l IH]; [done|]. cbn [map].
  intros [Hx Hl]%NoDup_cons. rewrite filter_cons.
  destruct (decide (P x)); [|by apply IH]. cbn [map].
  apply NoDup_cons. split; [|by apply IH].
  intros (y & Hxy & [_ Hy]%list_elem_of_filter)%list_elem_of_fmap.
  apply Hx. apply list_elem_of_fmap. eauto.
Qed.

Lemma NoDup_fmap_inj {A B} (f : A → B) (l : list A) (x y : A) :
  NoDup (map f l) → x ∈ l → y ∈ l → f x = f y → x = y.
Proof.
  induction l as [|z l IH]; [by intros _ ?%elem_of_nil|]. cbn.
  intros [Hz Hl]%NoDup_cons [->|Hx]%elem_of_cons [->|Hy]%elem_of_cons Hf.
  - done.
  - exfalso. apply Hz. rewrite Hf. apply list_elem_of_fmap. eauto.
  - exfalso. apply Hz. rewrite <- Hf. apply list_elem_of_fmap. eauto.
  - by apply IH.
Qed.

Lemma registry_row_cached w r :
  registry_ok w →
  r ∈ default [] (match_roles w !! mtr_guild_id r) ↔ r ∈ fetch_roles (database w).
Proof.
  intros (Hcache & _). rewrite Hcache. unfold roles_of_guild.
  rewrite list_elem_of_filter. split; [by intros [_ ?]|done].
Qed.

Lemma registry_cached_guild w g r :
  registry_ok w →
  r ∈ default [] (match_roles w !! g) →
  r ∈ fetch_roles (database w) ∧ mtr_guild_id r = g.
Proof.
  intros (Hcache & _). rewrite Hcache. unfold roles_of_guild.
  rewrite list_elem_of_filter. by intros [? ?].
Qed.

(** [add_role], by whether the triple is stored. *)
Lemma add_role_cases (guild : Z) (mtype : string) (role : Z) w :
  (mapped (database w) guild mtype role ∧
   add_role guild mtype role w = (w, Raise RoleExists)) ∨
  (¬ mapped (database w) guild mtype role ∧
   let row := mkMatchTypeRole
                (next_rowid (map mtr_id (tbl_match_type_roles (database w))))
                guild mtype role in
   add_role guild mtype role w
   = (mkWorld (with_match_type_roles (database w)
                 (tbl_match_type_roles (database w) ++ [row]))
              (clock w) (challenges w)
              (<[guild := default [] (match_roles w !! guild) ++ [row]]> (match_roles w))
              (sent w) (dispatched w), Ok tt)).
Proof.
  unfold add_role, bind, on_db.
  destruct (existsb (same_triple guild mtype role)
                    (tbl_match_type_roles (database w))) eqn:E.
  - left. apply existsb_same_triple in E as Hm. split; [done|].
    rewrite (create_match_type_role_taken _ _ _ _ Hm). by rewrite world_eta.
  - right. assert (¬ mapped (database w) guild mtype role) as Hm.
    { intros H%existsb_same_triple. congruence. }
    split; [done|]. by rewrite (create_match_type_role_fresh _ _ _ _ Hm).
Qed.

Lemma registry_ok_add (guild : Z) (mtype : string) (role : Z) w :
  registry_ok w →
  ¬ mapped (database w) guild mtype role →
  let row := mkMatchTypeRole
               (next_rowid (map mtr_id (tbl_match_type_roles (database w))))
               guild mtype role in
  registry_ok
    (mkWorld (with_match_type_roles (database w)
                (tbl_match_type_roles (database w) ++ [row]))
             (clock w) (challenges w)
             (<[guild := default [] (match_roles w !! guild) ++ [row]]> (match_roles w))
             (sent w) (dispatched w)).
Proof.
  intros (Hcache & Hids & Htriples) Hfresh. cbn zeta.
  unfold registry_ok, fetch_roles, roles_of_guild in *. cbn.
  split; [|split].
  - intros g. rewrite filter_app. destruct (decide (guild = g)) as [<-|Hg].
    + rewrite lookup_insert_eq, filter_cons_True by done. cbn.
      by rewrite Hcache.
    + rewrite lookup_insert_ne, filter_cons_False by done.
      rewrite filter_nil, app_nil_r. apply Hcache.
  - rewrite map_app. cbn. apply NoDup_app. split; [done|]. split.
    + intros x Hx%next_rowid_above ->%list_elem_of_singleton. lia.
    + apply NoDup_singleton.
  - rewrite map_app. cbn. apply NoDup_app. split; [done|]. split.
    + intros x (r & -> & Hr)%list_elem_of_fmap Heq%list_elem_of_singleton.
      apply Hfresh. exists r. unfold triple in Heq. by simplify_eq.
    + apply NoDup_singleton.
Qed.

Lemma remove_role_result (guild identifier : Z) w :
  remove_role guild identifier w
  = (mkWorld (with_match_type_roles (database w)
                (filter (λ r, mtr_id r ≠ identifier)
                        (tbl_match_type_roles (database w))))
             (clock w) (challenges w)
             (<[guild := filter (λ mr, mtr_id mr ≠ identifier)
                                (default [] (match_roles w !! guild))]> (match_roles w))
             (sent w) (dispatched w), Ok tt).
Proof. reflexivity. Qed.

(** Removing by an id whose row, if there is one, is of the guild keeps the
    registry in order. *)
Lemma registry_ok_remove (guild identifier : Z) w :
  registry_ok w →
  (∀ r, r ∈ fetch_roles (database w) → mtr_id r = identifier →
        mtr_guild_id r = guild) →
  registry_ok (fst (remove_role guild identifier w)).
Proof.
  intros (Hcache & Hids & Htriples) Hguild. rewrite remove_role_result.
  unfold registry_ok, fetch_roles, roles_of_guild in *. cbn.
  split; [|split].
  - intros g. destruct (decide (guild = g)) as [<-|Hg].
    + rewrite lookup_insert_eq. cbn. rewrite Hcache. apply filter_comm.
    + rewrite lookup_insert_ne by done. rewrite Hcache.
      rewrite list_filter_filter. apply filter_ext_elem.
      intros r Hr. split; [|by intros [? _]].
      intros Hrg. split; [done|]. intros Hid. apply Hg.
      rewrite <- Hrg. symmetry. by apply Hguild.
  - by apply NoDup_fmap_filter.
  - by apply NoDup_fmap_filter.
Qed.

End RegistryFacts.

(** X21.  [add_role] on a registry in order leaves it in order and touches
    neither the challenges nor the messages sent.  When the triple is stored
    it raises [RoleExists] and changes nothing; otherwise it returns, and the
    new mapping is the last stored row and the last of the list cached for
    its guild. *)
Theorem add_role_registers (guild : Z) (mtype : string) (role : Z) (w : World) :
  registry_ok w →
  let r := add_role guild mtype role w in
  registry_ok (fst r) ∧
  challenges (fst r) = challenges w ∧
  sent (fst r) = sent w ∧
  (mapped (database w) guild mtype role → r = (w, Raise RoleExists)) ∧
  (¬ mapped (database w) guild mtype role →
   snd r = Ok tt ∧
   mapped (database (fst r)) guild mtype role ∧
   ∃ row, triple row = (guild, mtype, role) ∧
          fetch_roles (database (fst r)) = fetch_roles (database w) ++ [row] ∧
          default [] (match_roles (fst r) !! guild)
          = default [] (match_roles w !! guild) ++ [row]).
Proof.
  intros Hok. cbn zeta.
  destruct (add_role_cases guild mtype role w) as [[Hm ->]|[Hm ->]]; cbn.
  - do 3 (split; [done|]). split; [done|]. intros H. by destruct H.
  - split; [by apply registry_ok_add|]. do 2 (split; [done|]).
    split; [intros H; by destruct Hm|]. intros _.
    split; [done|]. split.
    + apply mapped_after_create. by right.
    + eexists. split; [|split; [reflexivity|]]; [done|].
      by rewrite lookup_insert_eq.
Qed.

Lemma add_role_registers_witness :
  let w := world_with_roles in
  let r := add_role 30 "solo ultra" 5 w in
  registry_ok (fst r) ∧
  challenges (fst r) = challenges w ∧
  sent (fst r) = sent w ∧
  (mapped (database w) 30 "solo ultra" 5 → r = (w, Raise RoleExists)) ∧
  (¬ mapped (database w) 30 "solo ultra" 5 →
   snd r = Ok tt ∧
   mapped (database (fst r)) 30 "solo ultra" 5 ∧
   ∃ row, triple row = (30, "solo ultra"%string, 5) ∧
          fetch_roles (database (fst r)) = fetch_roles (database w) ++ [row] ∧
          default [] (match_roles (fst r) !! 30)
          = default [] (match_roles w !! 30) ++ [row]).
Proof.
  apply (add_role_registers 30 "solo ultra" 5 world_with_roles).
  split; [|split].
  - intros g. unfold roles_of_guild, fetch_roles, world_with_roles.
    cbn [database match_roles tbl_match_type_roles].
    destruct (decide (g = 30)) as [->|Hg]; [reflexivity|].
    rewrite lookup_singleton_ne by done.
    rewrite filter_cons_False by (cbn; congruence). done.
  - cbn. apply NoDup_singleton.
  - cbn. apply NoDup_singleton.
Defined.



Lemma world_with_roles_ok : registry_ok world_with_roles.
Proof.
  split; [|split].
  - intros g. unfold roles_of_guild, fetch_roles, world_with_roles.
    cbn [database match_roles tbl_match_type_roles].
    destruct (decide (g = 30)) as [->|Hg]; [reflexivity|].
    rewrite lookup_singleton_ne by done.
    rewrite filter_cons_False by (cbn; congruence). done.
  - cbn. apply NoDup_singleton.
  - cbn. apply NoDup_singleton.
Qed.

(** X23.  [set_role_cmd] on a registry in order is a switch: when the triple
    of the guild, the match type and the role is stored it answers "(-)"
    with the name of the role and the triple is stored no more; when it is
    not stored it answers "(+)" with the name and the triple is stored.  It
    never raises, [RoleExists] included, leaves the registry in order and
    touches neither the challenges nor the messages sent. *)
Theorem set_role_cmd_toggles (role_name : Role → string) (guild : Z)
    (mtype : string) (role : Role) (w : World) :
  registry_ok w →
  let r := set_role_cmd role_name guild mtype role w in
  registry_ok (fst r) ∧
  challenges (fst r) = challenges w ∧
  sent (fst r) = sent w ∧
  (mapped (database w) guild mtype (role_ident role) →
   snd r = Ok ("(-) " +:+ role_name role) ∧
   ¬ mapped (database (fst r)) guild mtype (role_ident role)) ∧
  (¬ mapped (database w) guild mtype (role_ident role) →
   snd r = Ok ("(+) " +:+ role_name role) ∧
   mapped (database (fst r)) guild mtype (role_ident role)).
Proof.
  intros Hok. cbn zeta.
  remember (set_role_cmd role_name guild mtype role w) as r eqn:Hrun.
  unfold set_role_cmd, bind, get_match_roles in Hrun.
  destruct (dict_of role_id mtr_id _ !! role_ident role) as [identifier|] eqn:Hdict.
  - apply dict_of_lookup_Some in Hdict as (mr & Hmr & Hrole & Hid).
    apply list_elem_of_filter in Hmr as [Htype Hmr].
    apply (registry_cached_guild w guild mr Hok) in Hmr as [Hstored Hguild].
    assert (mapped (database w) guild mtype (role_ident role)) as Hpresent
      by (by exists mr).
    assert (∀ r, r ∈ fetch_roles (database w) → mtr_id r = identifier →
                 mtr_guild_id r = guild) as Hrow.
    { intros r' Hr Hrid. destruct Hok as (_ & Hids & _).
      assert (r' = mr) as ->; [|done].
      apply (NoDup_fmap_inj mtr_id (fetch_roles (database w))); congruence. }
    pose proof (registry_ok_remove guild identifier w Hok Hrow) as Hok'.
    rewrite remove_role_result in Hrun, Hok'. cbn in Hrun, Hok'. subst r. cbn.
    split; [done|]. split; [done|]. split; [done|].
    split; [|intros H; by destruct H]. intros _. split; [done|].
    intros (r & Hr & Hg & Ht & Hro). cbn in Hr.
    apply list_elem_of_filter in Hr as [Hne Hr]. apply Hne.
    destruct Hok as (_ & _ & Htriples).
    assert (r = mr) as ->; [|done].
    apply (NoDup_fmap_inj triple (fetch_roles (database w))); try done.
    unfold triple. congruence.
  - assert (¬ mapped (database w) guild mtype (role_ident role)) as Habsent.
    { intros (r' & Hr & Hg & Ht & Hro).
      apply (registry_row_cached w r' Hok) in Hr. rewrite Hg in Hr.
      assert (r' ∈ filter (λ r, match_type r = mtype)
                          (default [] (match_roles w !! guild))) as Hin
        by (by apply list_elem_of_filter).
      apply (dict_of_lookup_elem role_id mtr_id) in Hin as [i Hi].
      rewrite Hro in Hi. congruence. }
    destruct (add_role_cases guild mtype (role_ident role) w) as [[Hm _]|[_ Hadd]];
      [done|].
    cbn zeta in Hadd. rewrite Hadd in Hrun. subst r. cbn.
    split; [by apply registry_ok_add|]. split; [done|]. split; [done|].
    split; [done|]. intros _. split; [done|].
    apply mapped_after_create. by right.
Qed.

Lemma set_role_cmd_toggles_witness :
  let w := world_with_roles in
  let r := set_role_cmd role_mention 30 "solo" pinged_role w in
  registry_ok (fst r) ∧
  challenges (fst r) = challenges w ∧
  sent (fst r) = sent w ∧
  (mapped (database w) 30 "solo" (role_ident pinged_role) →
   snd r = Ok ("(-) " +:+ role_mention pinged_role) ∧
   ¬ mapped (database (fst r)) 30 "solo" (role_ident pinged_role)) ∧
  (¬ mapped (database w) 30 "solo" (role_ident pinged_role) →
   snd r = Ok ("(+) " +:+ role_mention pinged_role) ∧
   mapped (database (fst r)) 30 "solo" (role_ident pinged_role)).
Proof.
  exact (set_role_cmd_toggles role_mention 30 "solo" pinged_role world_with_roles
           world_with_roles_ok).
Defined.

Section RoleDeleteFacts.

Variables (guild role : Z).

(** The loop of [on_guild_role_delete] over a list of mappings whose ids, as
    far as they are stored, are ids of rows of the guild. *)
Lemma for_each_remove_role (l : list MatchTypeRole) (w : World) :
  registry_ok w →
  (∀ r r', r ∈ l → r' ∈ fetch_roles (database w) → mtr_id r' = mtr_id r →
           mtr_guild_id r' = guild) →
  let res := for_each l (λ r, if bool_decide (role_id r = role)
                              then remove_role guild (mtr_id r)
                              else ret tt) w in
  snd res = Ok tt ∧
  registry_ok (fst res) ∧
  (∀ r', r' ∈ fetch_roles (database (fst res)) ↔
         r' ∈ fetch_roles (database w) ∧
         ¬ ∃ r, r ∈ l ∧ role_id r = role ∧ mtr_id r' = mtr_id r) ∧
  challenges (fst res) = challenges w ∧
  sent (fst res) = sent w.
Proof.
  revert w. induction l as [|x l IH]; intros w Hok Hguild; cbn zeta.
  - cbn. split; [done|]. split; [done|]. split; [|done].
    intros r'. split; [|by intros [? _]].
    intros Hr. split; [done|]. by intros (r & ?%elem_of_nil & _).
  - cbn [for_each]. unfold bind. case_bool_decide as Hx.
    + rewrite remove_role_result.
      pose proof (registry_ok_remove guild (mtr_id x) w Hok) as Hok1.
      rewrite remove_role_result in Hok1. cbn [fst] in Hok1.
      match goal with
      | |- context [for_each l ?body ?w1] =>
        destruct (IH w1) as (Hres & Hok' & Hrows & Hcache & Hsent)
      end.
      { apply Hok1. intros r' Hr' Hid. apply (Hguild x r'); [by left|done..]. }
      { intros r r' Hr Hr' Hid. apply (Hguild r r'); [by right| |done].
        unfold fetch_roles in *. cbn in Hr'.
        by apply list_elem_of_filter in Hr' as [_ ?]. }
      split; [done|]. split; [done|]. split; [|done].
      intros r'. rewrite Hrows. unfold fetch_roles. cbn.
      rewrite list_elem_of_filter. split.
      * intros [[Hne Hin] Hnot]. split; [done|].
        intros (r & [->|Hr]%elem_of_cons & Hrole & Hid); [done|].
        apply Hnot. eauto.
      * intros [Hin Hnot]. split; [split; [|done]|].
        -- intros Hid. apply Hnot. exists x. split; [by left|done].
        -- intros (r & Hr & Hrole & Hid). apply Hnot. exists r.
           split; [by right|done].
    + cbn [ret]. destruct (IH w Hok) as (Hres & Hok' & Hrows & Hcache & Hsent).
      { intros r r' Hr. apply Hguild. by right. }
      split; [done|]. split; [done|]. split; [|done].
      intros r'. rewrite Hrows. split; intros [Hin Hnot]; (split; [done|]).
      * intros (r & [->|Hr]%elem_of_cons & Hrole & Hid); [done|].
        apply Hnot. eauto.
      * intros (r & Hr & Hrole & Hid). apply Hnot. exists r.
        split; [by right|done].
Qed.

End RoleDeleteFacts.

(** X24.  [on_guild_role_delete] on a registry in order returns, leaves the
    registry in order, and takes out of the database exactly the mappings of
    the guild to the deleted role, of whatever match type: no triple of the
    guild with the role is stored afterwards, the cached list of the guild
    names the role no more, and the challenges and the messages sent are
    untouched. *)
Theorem on_guild_role_delete_forgets (guild role : Z) (w : World) :
  registry_ok w →
  let res := on_guild_role_delete guild role w in
  snd res = Ok tt ∧
  registry_ok (fst res) ∧
  (∀ r, r ∈ fetch_roles (database (fst res)) ↔
        r ∈ fetch_roles (database w) ∧
        ¬ (mtr_guild_id r = guild ∧ role_id r = role)) ∧
  (∀ mtype, ¬ mapped (database (fst res)) guild mtype role) ∧
  (∀ r, r ∈ default [] (match_roles (fst res) !! guild) → role_id r ≠ role) ∧
  challenges (fst res) = challenges w ∧
  sent (fst res) = sent w.
Proof.
  intros Hok. cbn zeta. unfold on_guild_role_delete, bind, get_match_roles.
  destruct (for_each_remove_role guild role
              (default [] (match_roles w !! guild)) w Hok)
    as (Hres & Hok' & Hrows & Hcache & Hsent).
  { intros r r' [Hr Hg]%(registry_cached_guild w guild r Hok) Hr' Hid.
    destruct Hok as (_ & Hids & _).
    assert (r' = r) as ->; [|done].
    by apply (NoDup_fmap_inj mtr_id (fetch_roles (database w))). }
  assert (∀ r, r ∈ fetch_roles (database
                 (fst (for_each (default [] (match_roles w !! guild))
                         (λ r, if bool_decide (role_id r = role)
                               then remove_role guild (mtr_id r) else ret tt) w))) ↔
               r ∈ fetch_roles (database w) ∧
               ¬ (mtr_guild_id r = guild ∧ role_id r = role)) as Hexact.
  { intros r'. rewrite Hrows. split; intros [Hin Hnot]; (split; [done|]).
    - intros [Hg Hrole]. apply Hnot. exists r'.
      split; [|done]. rewrite <- Hg. by apply registry_row_cached.
    - intros (r & [Hr Hg]%(registry_cached_guild w guild r Hok) & Hrole & Hid).
      destruct Hok as (_ & Hids & _).
      assert (r' = r) as ->; [|by apply Hnot].
      by apply (NoDup_fmap_inj mtr_id (fetch_roles (database w))). }
  split; [done|]. split; [done|]. split; [done|].
  split; [|split; [|done]].
  - intros mtype (r & Hr & Hg & _ & Hrole).
    apply Hexact in Hr as [_ Hnot]. by apply Hnot.
  - intros r [Hr Hg]%(registry_cached_guild _ guild r Hok') Hrole.
    apply Hexact in Hr as [_ Hnot]. by apply Hnot.
Qed.

Lemma on_guild_role_delete_forgets_witness :
  let w := world_with_roles in
  let res := on_guild_role_delete 30 5 w in
  snd res = Ok tt ∧
  registry_ok (fst res) ∧
  (∀ r, r ∈ fetch_roles (database (fst res)) ↔
        r ∈ fetch_roles (database w) ∧
        ¬ (mtr_guild_id r = 30 ∧ role_id r = 5)) ∧
  (∀ mtype, ¬ mapped (database (fst res)) 30 mtype 5) ∧
  (∀ r, r ∈ default [] (match_roles (fst res) !! 30) → role_id r ≠ 5) ∧
  challenges (fst res) = challenges w ∧
  sent (fst res) = sent w.
Proof.
  exact (on_guild_role_delete_forgets 30 5 world_with_roles world_with_roles_ok).
Defined.
